(** * tweets-home-track: a shallow embedding of the scrape / merge / poll core

    The development follows the TypeScript sources:
    - the retention store   ([addPosts], packages/storage),
    - the content script    ([formatTimestamp], [parseRelativeTime],
                             [extractTweets] and its id generation),
    - the scroll collector  ([scrapeTweetsWithScrolling]),
    - the background script ([stopPeriodicRefresh], [startPeriodicRefresh],
                             the interval callback and the tab listeners).

    JavaScript strings are sequences of UTF-16 code units, numbers that the
    code manipulates are integer valued (with NaN), and every call that reads
    the clock or the random generator takes what it read as an argument. *)

From Stdlib Require Import ZArith Lia Ascii String List Sorted Permutation DecimalPos.
From stdpp Require Import base decidable option list sorting gmap.
Import ListNotations.

Local Open Scope Z_scope.

(** ** The host: ECMAScript and Web platform primitives used by the sources *)

Module JS.

(** A string value: the list of its UTF-16 code units. *)
Abbreviation jsstring := (list Z).

Definition code_unit (c : Z) : Prop := 0 <= c < 65536.
Definition wf_string (s : jsstring) : Prop := Forall code_unit s.

Definition byte (b : Z) : Prop := 0 <= b <= 255.

(** A decoded element of a string is a Unicode code point when present. *)
Definition scalar (o : option Z) : Prop := forall cp, o = Some cp -> 0 <= cp <= 0x10FFFF.

(** Literals of the sources, written as Rocq strings of ASCII characters. *)
Fixpoint lit (s : string) : jsstring :=
  match s with
  | EmptyString => []
  | String a r => Z.of_N (N_of_ascii a) :: lit r
  end.

(** A number: the sources only compute with integer values and NaN. *)
Definition number := option Z.
Definition NaN : number := None.

Definition num_add (a b : number) : number :=
  match a, b with Some x, Some y => Some (x + y) | _, _ => None end.
Definition num_sub (a b : number) : number :=
  match a, b with Some x, Some y => Some (x - y) | _, _ => None end.
Definition num_mul (a b : number) : number :=
  match a, b with Some x, Some y => Some (x * y) | _, _ => None end.
Definition isNaN (a : number) : bool :=
  match a with Some _ => false | None => true end.

(** [String(n)] for an integer-valued number: decimal digits, a leading
    minus sign for negative values, and the text NaN. *)
Fixpoint uint_units (d : Decimal.uint) : jsstring :=
  match d with
  | Decimal.Nil => []
  | Decimal.D0 r => 48 :: uint_units r
  | Decimal.D1 r => 49 :: uint_units r
  | Decimal.D2 r => 50 :: uint_units r
  | Decimal.D3 r => 51 :: uint_units r
  | Decimal.D4 r => 52 :: uint_units r
  | Decimal.D5 r => 53 :: uint_units r
  | Decimal.D6 r => 54 :: uint_units r
  | Decimal.D7 r => 55 :: uint_units r
  | Decimal.D8 r => 56 :: uint_units r
  | Decimal.D9 r => 57 :: uint_units r
  end.

Definition Z_toString (z : Z) : jsstring :=
  match Z.to_int z with
  | Decimal.Pos d => uint_units d
  | Decimal.Neg d => 45 :: uint_units d
  end.

Definition Number_toString (n : number) : jsstring :=
  match n with
  | Some z => Z_toString z
  | None => lit "NaN"
  end.

(** The decimal digits of a number written in a fixed width of 2 or 4. *)
Definition digits2 (n : Z) : jsstring := [48 + n / 10; 48 + n mod 10].
Definition digits4 (n : Z) : jsstring :=
  [48 + n / 1000; 48 + n / 100 mod 10; 48 + n / 10 mod 10; 48 + n mod 10].

(** [s.padStart(n, c)] with a one-character filler. *)
Definition padStart (n : nat) (c : Z) (s : jsstring) : jsstring :=
  repeat c (n - length s)%nat ++ s.

(** [s.substring(a, b)] for [0 <= a <= b]. *)
Definition substring (a b : nat) (s : jsstring) : jsstring :=
  firstn (b - a)%nat (skipn a s).

(** Character classes. *)
Definition is_digit (c : Z) : bool := (48 <=? c) && (c <=? 57).
Definition is_upper (c : Z) : bool := (65 <=? c) && (c <=? 90).
Definition is_lower (c : Z) : bool := (97 <=? c) && (c <=? 122).
Definition is_alnum (c : Z) : bool := is_lower c || is_upper c || is_digit c.
Definition alnum (c : Z) : Prop := is_alnum c = true.

(** [parseInt(s)] on a non-empty run of decimal digits. *)
Definition parseInt_digits (ds : jsstring) : Z :=
  fold_left (fun acc c => 10 * acc + (c - 48)) ds 0.

(** *** Date

    A Date object holds a time value: an integral number of milliseconds
    since the epoch of magnitude at most 8.64e15, or NaN (Invalid Date). *)
Definition Date := number.

Definition maxTime : Z := 8640000000000000.

Definition TimeClip (t : number) : Date :=
  match t with
  | Some z => if Z.abs z <=? maxTime then Some z else None
  | None => None
  end.

(** [new Date(n)] and [d.getTime()]. *)
Definition Date_of_number (t : number) : Date := TimeClip t.
Definition getTime (d : Date) : number := d.

Definition msPerDay : Z := 86400000.
Definition msPerHour : Z := 3600000.
Definition msPerMinute : Z := 60000.
Definition msPerSecond : Z := 1000.

Definition Day (t : Z) : Z := t / msPerDay.

(** Proleptic Gregorian date of a day number (days since 1970-01-01):
    year, month in 1..12, day of month in 1..31. The calendar repeats
    every 146097 days (an era of 400 years, starting on a 1st of March);
    [ymd_of_doe] dates a day of the era. *)
Definition ymd_of_doe (doe : Z) : Z * Z * Z :=
  let yoe := (doe - doe / 1460 + doe / 36524 - doe / 146096) / 365 in
  let doy := doe - (365 * yoe + yoe / 4 - yoe / 100) in
  let mp := (5 * doy + 2) / 153 in
  let d := doy - (153 * mp + 2) / 5 + 1 in
  let m := if mp <? 10 then mp + 3 else mp - 9 in
  (if m <=? 2 then yoe + 1 else yoe, m, d).

Definition civil_from_days (days : Z) : Z * Z * Z :=
  let z := days + 719468 in
  let era := z / 146097 in
  let doe := z - era * 146097 in
  let '(y, m, d) := ymd_of_doe doe in
  (y + era * 400, m, d).

(** Day number of a proleptic Gregorian date. *)
Definition days_from_civil (y m d : Z) : Z :=
  let y' := if m <=? 2 then y - 1 else y in
  let era := y' / 400 in
  let yoe := y' - era * 400 in
  let doy := (153 * (if 2 <? m then m - 3 else m + 9) + 2) / 5 + d - 1 in
  let doe := yoe * 365 + yoe / 4 - yoe / 100 + doy in
  era * 146097 + doe - 719468.

Definition YearFromTime (t : Z) : Z := fst (fst (civil_from_days (Day t))).
(** ECMAScript months count from 0. *)
Definition MonthFromTime (t : Z) : Z := snd (fst (civil_from_days (Day t))) - 1.
Definition DateFromTime (t : Z) : Z := snd (civil_from_days (Day t)).
Definition HourFromTime (t : Z) : Z := (t / msPerHour) mod 24.
Definition MinFromTime (t : Z) : Z := (t / msPerMinute) mod 60.
Definition SecFromTime (t : Z) : Z := (t / msPerSecond) mod 60.
Definition msFromTime (t : Z) : Z := t mod msPerSecond.

Section LocalTime.
(** The host's time zone: the offset of local time from UTC, in
    milliseconds, in force at a given instant. *)
Variable LocalTZA : Z -> Z.

Definition LocalTime (t : Z) : Z := t + LocalTZA t.

Definition getFullYear (d : Date) : number := option_map (fun t => YearFromTime (LocalTime t)) d.
Definition getMonth (d : Date) : number := option_map (fun t => MonthFromTime (LocalTime t)) d.
Definition getDate (d : Date) : number := option_map (fun t => DateFromTime (LocalTime t)) d.
Definition getHours (d : Date) : number := option_map (fun t => HourFromTime (LocalTime t)) d.
Definition getMinutes (d : Date) : number := option_map (fun t => MinFromTime (LocalTime t)) d.
Definition getSeconds (d : Date) : number := option_map (fun t => SecFromTime (LocalTime t)) d.
End LocalTime.

(** [d.toISOString()]: YYYY-MM-DDTHH:mm:ss.sssZ in UTC, with the expanded
    six-digit signed year outside 0..9999; raises RangeError ([None]) on an
    Invalid Date. *)
Definition pad (n : nat) (z : Z) : jsstring := padStart n 48 (Z_toString z).

Definition isoYear (y : Z) : jsstring :=
  if (0 <=? y) && (y <=? 9999) then pad 4 y
  else if y <? 0 then 45 :: pad 6 (- y)
  else 43 :: pad 6 y.

Definition isoString (t : Z) : jsstring :=
  isoYear (YearFromTime t) ++ lit "-" ++ pad 2 (MonthFromTime t + 1) ++ lit "-"
  ++ pad 2 (DateFromTime t) ++ lit "T" ++ pad 2 (HourFromTime t) ++ lit ":"
  ++ pad 2 (MinFromTime t) ++ lit ":" ++ pad 2 (SecFromTime t) ++ lit "."
  ++ pad 3 (msFromTime t) ++ lit "Z".

Definition toISOString (d : Date) : option jsstring := option_map isoString d.

(** *** Text encodings *)

Definition is_high_surrogate (c : Z) : bool := (0xD800 <=? c) && (c <=? 0xDBFF).
Definition is_low_surrogate (c : Z) : bool := (0xDC00 <=? c) && (c <=? 0xDFFF).

(** The code points of a string; [None] stands for a lone surrogate. *)
Fixpoint code_points (s : jsstring) : list (option Z) :=
  match s with
  | [] => []
  | c :: r =>
      if is_high_surrogate c then
        match r with
        | lo :: r' =>
            if is_low_surrogate lo
            then Some (0x10000 + (c - 0xD800) * 1024 + (lo - 0xDC00)) :: code_points r'
            else None :: code_points r
        | [] => [None]
        end
      else if is_low_surrogate c then None :: code_points r
      else Some c :: code_points r
  end.

Definition utf8_of_code_point (cp : Z) : list Z :=
  if cp <? 0x80 then [cp]
  else if cp <? 0x800 then
    [0xC0 + cp / 64; 0x80 + cp mod 64]
  else if cp <? 0x10000 then
    [0xE0 + cp / 4096; 0x80 + (cp / 64) mod 64; 0x80 + cp mod 64]
  else
    [0xF0 + cp / 262144; 0x80 + (cp / 4096) mod 64; 0x80 + (cp / 64) mod 64;
     0x80 + cp mod 64].

(** [new TextEncoder().encode(s)]: UTF-8, a lone surrogate is encoded as
    U+FFFD; never raises. *)
Definition TextEncoder_encode (s : jsstring) : list Z :=
  flat_map (fun cp => utf8_of_code_point (default 0xFFFD cp)) (code_points s).

(** [String.fromCharCode(...bytes)]: one code unit per argument (ToUint16). *)
Definition String_fromCharCode (args : list Z) : jsstring :=
  map (fun b => b mod 65536) args.

(** The base64 alphabet. *)
Definition b64_char (i : Z) : Z :=
  if i <? 26 then 65 + i
  else if i <? 52 then 97 + (i - 26)
  else if i <? 62 then 48 + (i - 52)
  else if i =? 62 then 43
  else 47.

Fixpoint base64 (bytes : list Z) : jsstring :=
  match bytes with
  | [] => []
  | [a] =>
      [b64_char (a / 4); b64_char (a mod 4 * 16); 61; 61]
  | [a; b] =>
      [b64_char (a / 4); b64_char (a mod 4 * 16 + b / 16); b64_char (b mod 16 * 4); 61]
  | a :: b :: c :: r =>
      b64_char (a / 4)
      :: b64_char (a mod 4 * 16 + b / 16)
      :: b64_char (b mod 16 * 4 + c / 64)
      :: b64_char (c mod 64)
      :: base64 r
  end.

(** [btoa(s)]: raises InvalidCharacterError ([None]) when a code unit is
    above 0xFF. *)
Definition btoa (s : jsstring) : option jsstring :=
  if forallb (fun c => (0 <=? c) && (c <=? 255)) s then Some (base64 s) else None.

(** [encodeURIComponent(s)]: raises URIError ([None]) on a lone surrogate. *)
Definition uri_unreserved (c : Z) : bool :=
  is_alnum c
  || existsb (Z.eqb c) [45; 95; 46; 33; 126; 42; 39; 40; 41].

Definition hex_digit (v : Z) : Z := if v <? 10 then 48 + v else 55 + v.

Definition percent_byte (b : Z) : jsstring :=
  [37; hex_digit (b / 16); hex_digit (b mod 16)].

Definition encode_code_point (cp : Z) : jsstring :=
  if uri_unreserved cp then [cp] else flat_map percent_byte (utf8_of_code_point cp).

Fixpoint encodeURIComponent_points (cps : list (option Z)) : option jsstring :=
  match cps with
  | [] => Some []
  | None :: _ => None
  | Some cp :: r =>
      match encodeURIComponent_points r with
      | Some e => Some (encode_code_point cp ++ e)
      | None => None
      end
  end.

Definition encodeURIComponent (s : jsstring) : option jsstring :=
  encodeURIComponent_points (code_points s).

(** [unescape(s)]: %uXXXX and %XX are replaced by the code unit they name. *)
Definition hex_value (c : Z) : option Z :=
  if is_digit c then Some (c - 48)
  else if (65 <=? c) && (c <=? 70) then Some (c - 55)
  else if (97 <=? c) && (c <=? 102) then Some (c - 87)
  else None.

Definition hex_run (n : nat) (s : jsstring) : option Z :=
  if (length (firstn n s) =? n)%nat then
    foldl (fun acc c => match acc, hex_value c with
                        | Some a, Some v => Some (16 * a + v)
                        | _, _ => None
                        end) (Some 0) (firstn n s)
  else None.

Fixpoint unescape_from (skip : nat) (s : jsstring) : jsstring :=
  match s with
  | [] => []
  | c :: r =>
      match skip with
      | S k => unescape_from k r
      | O =>
          if c =? 37 then
            match r with
            | u :: r' =>
                match (if u =? 117 then hex_run 4 r' else None), hex_run 2 r with
                | Some v, _ => v :: unescape_from 5 r
                | None, Some v => v :: unescape_from 2 r
                | None, None => c :: unescape_from 0 r
                end
            | [] => [c]
            end
          else c :: unescape_from 0 r
      end
  end.

Definition unescape (s : jsstring) : jsstring := unescape_from 0 s.

(** *** Regular expressions of the sources *)

(** [s.replace(/[^a-zA-Z0-9]/g, '')]. *)
Definition strip_non_alnum (s : jsstring) : jsstring := filter (fun c => is_alnum c = true) s.

(** [s.match(/(\d+)([smhd])/)]: the leftmost match. A match starts at the
    first digit of a maximal run of digits that is directly followed by one
    of the four unit letters; the groups are the run and the letter.
    [run] is the run of digits being read, if any. *)
Definition is_unit (c : Z) : bool := existsb (Z.eqb c) [115; 109; 104; 100].

Fixpoint match_relative_from (run : option jsstring) (s : jsstring) : option (jsstring * Z) :=
  match s with
  | [] => None
  | c :: r =>
      if is_digit c then
        match_relative_from (Some (default [] run ++ [c])) r
      else
        match run with
        | Some ds => if is_unit c then Some (ds, c) else match_relative_from None r
        | None => match_relative_from None r
        end
  end.

Definition match_relative (s : jsstring) : option (jsstring * Z) :=
  match_relative_from None s.

(** *** Array.prototype.sort

    The sort is stable; a comparator result of NaN counts as +0. For a
    comparator that orders the elements consistently the outcome is the
    unique stable arrangement, which insertion from the right computes.
    Only the sign of the comparator's result matters. *)
Section Sort.
Context {A : Type} (comparefn : A -> A -> number).

Definition SortCompare (x y : A) : Z := default 0 (comparefn x y).

Fixpoint sort_insert (x : A) (l : list A) : list A :=
  match l with
  | [] => [x]
  | y :: r => if SortCompare x y <=? 0 then x :: l else y :: sort_insert x r
  end.

Definition Array_sort (l : list A) : list A := foldr sort_insert [] l.

(** The comparator orders the elements of [l] by decreasing key [k]. *)
Definition by_key_desc (k : A -> Z) (l : list A) : Prop :=
  forall x y, x ∈ l -> y ∈ l -> SortCompare x y = k y - k x.
End Sort.

(** [P] holds of [count] consecutive numbers from [start]: used to settle
    facts about bounded numbers by evaluation. *)
Fixpoint all_from (P : Z -> bool) (start : Z) (count : nat) : bool :=
  match count with
  | O => true
  | S c => P start && all_from P (start + 1) c
  end.

(** [a.slice(0, n)]. *)
Definition slice0 {A} (n : nat) (l : list A) : list A := firstn n l.

(** *** An instance of the host's Date parser

    [new Date(s)] accepts the format that [toISOString] produces (and that
    the feed puts in its datetime attributes); what else it accepts depends
    on the engine, so the sources are modelled over an arbitrary parser.
    [parseISO] reads exactly YYYY-MM-DDTHH:mm:ss.sssZ and is used to run the
    model on concrete data. *)
Definition digits_value (s : jsstring) : option Z :=
  if forallb is_digit s then Some (parseInt_digits s) else None.

Definition parseISO (s : jsstring) : Date :=
  if negb (length s =? 24)%nat then None else
  if negb (forallb (fun '(i, c) => nth i s 0 =? c)
             [(4%nat, 45); (7%nat, 45); (10%nat, 84); (13%nat, 58); (16%nat, 58);
              (19%nat, 46); (23%nat, 90)])
  then None else
  match digits_value (substring 0 4 s), digits_value (substring 5 7 s),
        digits_value (substring 8 10 s), digits_value (substring 11 13 s),
        digits_value (substring 14 16 s), digits_value (substring 17 19 s),
        digits_value (substring 20 23 s) with
  | Some y, Some mo, Some d, Some h, Some mi, Some sec, Some ms =>
      if (1 <=? mo) && (mo <=? 12) && (1 <=? d) && (d <=? 31)
         && (h <=? 23) && (mi <=? 59) && (sec <=? 59)
      then TimeClip (Some (days_from_civil y mo d * msPerDay + h * msPerHour
                           + mi * msPerMinute + sec * msPerSecond + ms))
      else None
  | _, _, _, _, _, _, _ => None
  end.

(** *** More of String.prototype *)

(** [s.includes(t)]: [t] occurs in [s] as a run of consecutive code units. *)
Fixpoint includes (t s : jsstring) : bool :=
  bool_decide (t `prefix_of` s)
  || match s with
     | [] => false
     | _ :: r => includes t r
     end.

(** [s.trim()]: white space and line terminators are removed at both ends. *)
Definition is_white_space (c : Z) : bool :=
  existsb (Z.eqb c)
    [9; 10; 11; 12; 13; 32; 160; 0x1680; 0x2028; 0x2029; 0x202F; 0x205F; 0x3000; 0xFEFF]
  || ((0x2000 <=? c) && (c <=? 0x200A)).

Fixpoint trimStart (s : jsstring) : jsstring :=
  match s with
  | [] => []
  | c :: r => if is_white_space c then trimStart r else s
  end.

Definition trim (s : jsstring) : jsstring := rev (trimStart (rev (trimStart s))).

(** [s.replace(/c/g, d)] and [s.replace(c, d)] for single code units: every
    occurrence, and the first one only. *)
Definition replace_all (c d : Z) (s : jsstring) : jsstring :=
  map (fun x => if x =? c then d else x) s.

Fixpoint replace_first (c d : Z) (s : jsstring) : jsstring :=
  match s with
  | [] => []
  | x :: r => if x =? c then d :: r else x :: replace_first c d r
  end.

(** [n.toString(16)] for an integer [0 <= n < 16^16]. *)
Definition hex_lower (v : Z) : Z := if v <? 10 then 48 + v else 87 + v.

Fixpoint hex_units (fuel : nat) (n : Z) : jsstring :=
  match fuel with
  | O => []
  | S fuel' =>
      if n <? 16 then [hex_lower n]
      else hex_units fuel' (n / 16) ++ [hex_lower (n mod 16)]
  end.

Definition toString16 (n : Z) : jsstring := hex_units 16 n.

Definition is_hex_lower (c : Z) : bool := is_digit c || ((97 <=? c) && (c <=? 102)).

(** [ToInt32]: the value modulo 2^32 that lies in [-2^31, 2^31). *)
Definition ToInt32 (z : Z) : Z := (z + 2 ^ 31) mod 2 ^ 32 - 2 ^ 31.

End JS.

(** ** The retention store (packages/storage, twitterStorage) *)

Module Storage.
Import JS.

Record TwitterPost := {
  id : jsstring;
  author : jsstring;
  content : jsstring;
  timestamp : jsstring;     (* year/month/day hours:minutes:seconds *)
  publishTime : jsstring;   (* ISO string, used to sort and compare *)
}.

Record TwitterStorageState := {
  posts : list TwitterPost;
  lastFetchTime : jsstring;
  isFirstTime : bool;
}.

(** The fallback value given to [createStorage]. *)
Definition defaultState : TwitterStorageState :=
  {| posts := []; lastFetchTime := lit ""; isFirstTime := true |}.

Section WithParser.
(** [new Date(s)] of the engine. *)
Variable Date_parse : jsstring -> Date.

(** The comparator handed to [sort]:
    [new Date(b.publishTime).getTime() - new Date(a.publishTime).getTime()].
    Both operands are integers of magnitude at most 8.64e15, so the sign
    of the floating-point difference is the sign of the exact one. *)
Definition byPublishTimeDesc (a b : TwitterPost) : number :=
  num_sub (getTime (Date_parse (publishTime b))) (getTime (Date_parse (publishTime a))).

(** [addPosts(newPosts)], run on the stored state at the instant [now]
    (what [new Date()] yields inside the update); returns the state that
    is written back and the resolved value. The state read by
    [storage.get()] and the one handed to the updater of [storage.set]
    are the same: the store has a single writer. *)
Definition addPosts (currentState : TwitterStorageState) (newPosts : list TwitterPost)
    (now : Z) : TwitterStorageState * nat :=
  let existingIds : gset jsstring := list_to_set (id <$> posts currentState) in
  let uniqueNewPosts := filter (fun post => id post ∉ existingIds) newPosts in
  let state := currentState in
  let allPosts :=
    slice0 20 (Array_sort byPublishTimeDesc (uniqueNewPosts ++ posts state)) in
  ({| posts := allPosts; lastFetchTime := isoString now; isFirstTime := false |},
   length uniqueNewPosts).

(** [getLatestTimestamp()]: [None] is null. *)
Definition getLatestTimestamp (state : TwitterStorageState) : option Date :=
  match posts state with
  | [] => None
  | p :: _ => Some (Date_parse (publishTime p))
  end.

(** The properties of a stored list that the merge is meant to keep. *)
Definition valid_time (p : TwitterPost) : Prop := is_Some (Date_parse (publishTime p)).
Definition instant (p : TwitterPost) : Z := default 0 (Date_parse (publishTime p)).
Definition descending (l : list TwitterPost) : Prop :=
  StronglySorted (fun a b => instant b <= instant a) l.
Definition increasing (l : list TwitterPost) : Prop :=
  StronglySorted (fun a b => instant a < instant b) l.
Definition unique_ids (l : list TwitterPost) : Prop := NoDup (id <$> l).

(** A run of merges: the batches in the order of the calls, each with
    the instant at which it is merged. *)
Definition merges (st : TwitterStorageState) (calls : list (list TwitterPost * Z))
    : TwitterStorageState :=
  foldl (fun st '(batch, now) => fst (addPosts st batch now)) st calls.
End WithParser.

(** [reset()]. *)
Definition reset (_ : TwitterStorageState) : TwitterStorageState :=
  {| posts := []; lastFetchTime := lit ""; isFirstTime := true |}.

(** The posts of a batch whose id is not among the stored ones: what
    [addPosts] calls [uniqueNewPosts], said with lists. *)
Definition novel (st : TwitterStorageState) (batch : list TwitterPost) : list TwitterPost :=
  filter (fun post => id post ∉ id <$> posts st) batch.

End Storage.

(** ** The content script: timestamps and extraction *)

Module Content.
Import JS.

(** What [extractTweets] reads from a time element. *)
Record TimeElement := {
  datetime : option jsstring;     (* getAttribute('datetime'), null if absent *)
  timeText : jsstring;            (* textContent *)
}.

(** What [extractTweets] reads from one tweet element. The five ad
    detectors only decide whether the element is skipped; their verdict is
    the field [isAd]. *)
Record TweetElement := {
  isAd : bool;
  userName : option jsstring;     (* text of [data-testid="User-Name"] span *)
  tweetText : option jsstring;    (* text of [data-testid="tweetText"] *)
  timeElement : option TimeElement;
}.

(** What one extraction reads from the environment: the clock inside
    [parseRelativeTime], the clock and random digits of the fallback id,
    and the largest number of arguments that the engine accepts in one
    call at that point (it raises RangeError beyond; the number depends on
    the engine and on the stack that is left). *)
Record Reading := {
  clock : Z;
  fallbackClock : Z;
  randomDigits : jsstring;
  argumentLimit : Z;
}.

(** [x || d] on a possibly missing string: the empty string is falsy. *)
Definition or_else (x : option jsstring) (d : jsstring) : jsstring :=
  match x with
  | Some (c :: r) => c :: r
  | _ => d
  end.

(** The datetime attribute is missing or empty. *)
Definition no_datetime (te : TimeElement) : Prop :=
  datetime te = None \/ datetime te = Some [].

(** The texts read from the page are strings. *)
Definition wf_element (el : TweetElement) : Prop :=
  (forall s, userName el = Some s -> wf_string s)
  /\ (forall s, tweetText el = Some s -> wf_string s).

(** The text has no lone surrogate. *)
Definition well_formed (s : jsstring) : Prop := Forall is_Some (code_points s).

(** The UTF-8 bytes of the text can be passed as the arguments of one call. *)
Definition fits (s : jsstring) (r : Reading) : Prop :=
  Z.of_nat (length (TextEncoder_encode s)) <= argumentLimit r.

(** One of the two ways of encoding the text goes through. *)
Definition encodable (s : jsstring) (r : Reading) : Prop := fits s r \/ well_formed s.

(** A code unit of the ASCII range whose low six bits are below 62: all
    but the characters > ? ~ and DEL. *)
Definition plain (c : Z) : Prop := 0 <= c < 128 /\ c mod 64 < 62.

Section Host.
Variable LocalTZA : Z -> Z.
Variable Date_parse : jsstring -> Date.

Definition pad2 (n : number) : jsstring := padStart 2 48 (Number_toString n).

Definition formatTimestamp (date : Date) : jsstring :=
  let year := getFullYear LocalTZA date in
  let month := pad2 (num_add (getMonth LocalTZA date) (Some 1)) in
  let day := pad2 (getDate LocalTZA date) in
  let hours := pad2 (getHours LocalTZA date) in
  let minutes := pad2 (getMinutes LocalTZA date) in
  let seconds := pad2 (getSeconds LocalTZA date) in
  Number_toString year ++ lit "/" ++ month ++ lit "/" ++ day ++ lit " "
  ++ hours ++ lit ":" ++ minutes ++ lit ":" ++ seconds.

(** [parseRelativeTime(timeText)] evaluated at the instant [now], the
    time value that [new Date()] reads from the clock.
    The arithmetic of the source is on doubles; all operands are
    integers, the results are exact whenever they lie in the range of
    time values (below 2^53), and a result outside that range is an
    Invalid Date whether rounded or not. *)
Definition parseRelativeTime (timeText : jsstring) (now : Z) : Date :=
  match match_relative timeText with
  | None => Some now
  | Some (digits, unit) =>
      let value := parseInt_digits digits in
      if unit =? 115 (* s *) then Date_of_number (Some (now - value * 1000))
      else if unit =? 109 (* m *) then Date_of_number (Some (now - value * 60 * 1000))
      else if unit =? 104 (* h *) then Date_of_number (Some (now - value * 60 * 60 * 1000))
      else if unit =? 100 (* d *) then Date_of_number (Some (now - value * 24 * 60 * 60 * 1000))
      else Some now
  end.

(** The duration that a unit letter of a relative time stands for. *)
Definition unit_millis (unit : Z) : Z :=
  if unit =? 115 then 1000
  else if unit =? 109 then 60 * 1000
  else if unit =? 104 then 60 * 60 * 1000
  else 24 * 60 * 60 * 1000.

(** The publish time of a tweet element: the datetime attribute when it
    is present and non-empty, otherwise the relative text, with the
    epoch substituted for an Invalid Date on that second path.
    [parseRelativeTime] raises nothing, so the handler around its call,
    which substitutes the epoch as well, has nothing to catch. *)
Definition publishTimeOf (timeElement : option TimeElement) (now : Z) : Date :=
  let dateTimeAttr := match timeElement with Some e => datetime e | None => None end in
  match dateTimeAttr with
  | Some (c :: r) => Date_parse (c :: r)
  | _ =>
      let text := or_else (option_map timeText timeElement) [] in
      let publishTime := parseRelativeTime text now in
      if isNaN (getTime publishTime) then Date_of_number (Some 0) else publishTime
  end.

Definition truncate_id (b : jsstring) : jsstring := substring 0 16 (strip_non_alnum b).

(** The id of a tweet; [None] when both the encoder path and the handler
    of its exception raise. The encoder path spreads the bytes into the
    arguments of [String.fromCharCode], one argument a byte, and raises
    when they are more than the engine accepts, or when [btoa] raises; the
    handler raises when [encodeURIComponent] or [btoa] does. When the id
    comes out empty the fallback id is made from the clock and the random
    generator. *)
Definition generateId (author content : jsstring) (publishTime : Date)
    (r : Reading) : option jsstring :=
  let idSource := author ++ content ++ Number_toString (getTime publishTime) in
  let attempt :=
    let utf8Bytes := TextEncoder_encode idSource in
    if Z.of_nat (length utf8Bytes) <=? argumentLimit r
    then option_map truncate_id (btoa (String_fromCharCode utf8Bytes))
    else None in
  let id :=
    match attempt with
    | Some id => Some id
    | None =>
        match encodeURIComponent idSource with
        | Some e => option_map truncate_id (btoa (unescape e))
        | None => None
        end
    end in
  match id with
  | Some [] =>
      Some (lit "fallback_" ++ Number_toString (Some (fallbackClock r)) ++ lit "_"
            ++ randomDigits r)
  | other => other
  end.

(** The body of the try block for one element that is not an ad;
    [None] when it raises, in which case the element is skipped. *)
Definition extractTweet (el : TweetElement) (r : Reading) : option Storage.TwitterPost :=
  let author := or_else (userName el) (lit "Unknown") in
  let content := or_else (tweetText el) [] in
  let publishTime := publishTimeOf (timeElement el) (clock r) in
  match generateId author content publishTime r with
  | None => None
  | Some id =>
      let timestamp := formatTimestamp publishTime in
      match toISOString publishTime with
      | None => None
      | Some iso =>
          Some {| Storage.id := id; Storage.author := author; Storage.content := content;
                  Storage.timestamp := timestamp; Storage.publishTime := iso |}
      end
  end.

Fixpoint extractTweets (els : list (TweetElement * Reading)) : list Storage.TwitterPost :=
  match els with
  | [] => []
  | (el, r) :: rest =>
      if isAd el then extractTweets rest
      else match extractTweet el r with
           | Some tweet => tweet :: extractTweets rest
           | None => extractTweets rest
           end
  end.
End Host.

End Content.

(** ** The content script: one round of monitoring *)

Module Monitor.
Import JS Storage.

(** The TWEETS_UPDATED message sent to the side panel. *)
Record TweetsUpdated := {
  updated_count : nat;
  updated_isFirstTime : bool;
}.

Section Host.
Variable LocalTZA : Z -> Z.
Variable Date_parse : jsstring -> Date.

(** [a > b] on two Date objects: both are converted to their time values,
    and a comparison with NaN is false. *)
Definition Date_gt (a b : Date) : bool :=
  match getTime a, getTime b with
  | Some x, Some y => y <? x
  | _, _ => false
  end.

(** The tweets that a round hands to [addPosts]; a Date object is truthy,
    also an invalid one, null is not. *)
Definition tweetsToSave (storage : TwitterStorageState) (newTweets : list TwitterPost)
    : list TwitterPost :=
  if isFirstTime storage then slice0 20 newTweets
  else
    match getLatestTimestamp Date_parse storage with
    | Some latestTimestamp =>
        filter (fun tweet => Date_gt (Date_parse (publishTime tweet)) latestTimestamp = true)
          newTweets
    | None => slice0 20 newTweets
    end.

(** [monitorTwitter()] once the page has loaded: [href] is the location,
    [els] what [extractTweets] reads from the page, [storage] the stored
    state and [now] the instant of the merge. Returns the state of the
    store afterwards and the message sent, if any. The three reads of the
    store see one state: nothing else writes between them. *)
Definition monitorTwitter (href : jsstring) (els : list (Content.TweetElement * Content.Reading))
    (storage : TwitterStorageState) (now : Z)
    : TwitterStorageState * option TweetsUpdated :=
  if negb (includes (lit "x.com/home") href) then (storage, None)
  else
    let newTweets := Content.extractTweets LocalTZA Date_parse els in
    if (0 <? length newTweets)%nat then
      let isFirstTime := isFirstTime storage in
      let tweetsToSave := tweetsToSave storage newTweets in
      if (0 <? length tweetsToSave)%nat then
        (fst (addPosts Date_parse storage tweetsToSave now),
         Some {| updated_count := length tweetsToSave; updated_isFirstTime := isFirstTime |})
      else (storage, None)
    else (storage, None).
End Host.

End Monitor.

(** ** The scroll collector (pages/content, twitterScraper) *)

Module Scraper.
Import JS.

Record RawTweet := {
  author : jsstring;
  displayTimestamp : jsstring;
  content : jsstring;
  rawDatetime : jsstring;
}.

Definition minTweetsToCollect : nat := 20.
Definition maxScrollAttempts : nat := 10.

(** How a run of the collector ends. The source marks the two [break]s by
    their log lines (target reached; no new unique tweets); leaving the
    loop through its condition is the third way out. *)
Inductive StopReason := TargetReached | MaxAttemptsReached | NoNewContent.

#[global] Instance StopReason_eq_dec : EqDecision StopReason.
Proof. solve_decision. Defined.

(** The variables of [scrapeTweetsWithScrolling]. *)
Record Collector := {
  collectedTweets : list RawTweet;
  collectedTweetUniqueIdentifiers : gset jsstring;
  scrollAttempts : nat;
}.

Definition start : Collector :=
  {| collectedTweets := []; collectedTweetUniqueIdentifiers := ∅; scrollAttempts := 0 |}.

Definition uniqueKey (tweet : RawTweet) : jsstring :=
  author tweet ++ lit "-" ++ rawDatetime tweet.

(** The body of the [forEach] over the tweets in view; the third component
    is [foundNewTweetsInThisScroll]. *)
Definition visit (st : list RawTweet * gset jsstring * bool) (tweet : RawTweet)
    : list RawTweet * gset jsstring * bool :=
  let '(collected, ids, found) := st in
  if decide (uniqueKey tweet ∈ ids) then st
  else (collected ++ [tweet], {[uniqueKey tweet]} ∪ ids, true).

(** One pass through the loop body up to and including the increment of
    [scrollAttempts]. *)
Definition scroll_step (newTweetsInView : list RawTweet) (c : Collector) : Collector * bool :=
  let '(collected, ids, found) :=
    foldl visit (collectedTweets c, collectedTweetUniqueIdentifiers c, false) newTweetsInView in
  ({| collectedTweets := collected; collectedTweetUniqueIdentifiers := ids;
      scrollAttempts := S (scrollAttempts c) |}, found).

(** The while loop. [views k] is what [scrapeCurrentViewPortTweets()]
    returns on its call number [k] (counting from 0), that is after [k]
    scrolls to the bottom and waits. [None]: the fuel ran out. *)
Fixpoint collect (fuel : nat) (views : nat -> list RawTweet) (c : Collector)
    : option (Collector * StopReason) :=
  match fuel with
  | O => None
  | S fuel' =>
      if (length (collectedTweets c) <? minTweetsToCollect)%nat
         && (scrollAttempts c <? maxScrollAttempts)%nat
      then
        let '(c', foundNewTweetsInThisScroll) := scroll_step (views (scrollAttempts c)) c in
        if (minTweetsToCollect <=? length (collectedTweets c'))%nat
           && (0 <? scrollAttempts c')%nat
        then Some (c', TargetReached)
        else if negb foundNewTweetsInThisScroll && (1 <? scrollAttempts c')%nat
        then Some (c', NoNewContent)
        else collect fuel' views c'
      else
        Some (c, if (length (collectedTweets c) <? minTweetsToCollect)%nat
                 then MaxAttemptsReached else TargetReached)
  end.

Definition scrapeTweetsWithScrolling (views : nat -> list RawTweet)
    : option (Collector * StopReason) :=
  collect (S maxScrollAttempts) views start.

(** What a run amounts to: tweets collected, scroll attempts, reason. *)
Definition outcome (views : nat -> list RawTweet) : option (nat * nat * StopReason) :=
  (fun '(c, r) => (length (collectedTweets c), scrollAttempts c, r))
    <$> scrapeTweetsWithScrolling views.

(** The collector after [k] steps taken regardless of the stopping rules,
    and the number of tweets it has accumulated by then. Step [k]
    contributes that many novel tweets: [count views k - count views (k - 1)]. *)
Fixpoint after (views : nat -> list RawTweet) (k : nat) : Collector :=
  match k with
  | O => start
  | S k' => fst (scroll_step (views k') (after views k'))
  end.

Definition count (views : nat -> list RawTweet) (k : nat) : nat :=
  length (collectedTweets (after views k)).

(** The way out that the counts dictate when the run ends with step [k]. *)
Definition reason_at (views : nat -> list RawTweet) (k : nat) : StopReason :=
  if (minTweetsToCollect <=? count views k)%nat then TargetReached
  else if (2 <=? k)%nat && (count views k =? count views (k - 1))%nat then NoNewContent
  else MaxAttemptsReached.

(** The tweets of a list that carry a key which is neither in [seen] nor
    carried by an earlier tweet of the list. *)
Fixpoint first_by_key (seen : gset jsstring) (l : list RawTweet) : list RawTweet :=
  match l with
  | [] => []
  | t :: r =>
      if decide (uniqueKey t ∈ seen) then first_by_key seen r
      else t :: first_by_key ({[uniqueKey t]} ∪ seen) r
  end.

(** The tweets in view during the first [k] passes, in the order in which
    the collector meets them. *)
Definition met (views : nat -> list RawTweet) (k : nat) : list RawTweet :=
  mjoin (views <$> seq 0 k).


End Scraper.

(** ** The background script: periodic refresh of the tracked tab *)

Module Background.
Import JS.

Record Tab := {
  tab_id : option Z;
  tab_url : option jsstring;
  tab_active : bool;
}.

Inductive Notice := FETCH_TWEETS_ERROR | TWEET_DATA_RESPONSE.

(** Calls into the host made by the handlers. *)
Inductive Action :=
  | clearInterval (handle : nat)
  | setInterval (handle : nat)
  | tabs_reload (tabId : Z)
  | tabs_sendMessage (tabId : Z)          (* EXECUTE_SCRAPE_REQUEST *)
  | tabs_query
  | tabs_update (tabId : Z)               (* active: true *)
  | tabs_create                           (* https://x.com/home *)
  | runtime_sendMessage (notice : Notice).

(** The module-level variables, and the host's timers: the handles of the
    intervals that are live and the next handle to be handed out. *)
Record State := {
  refreshIntervalId : option nat;
  twitterTabId : option Z;
  isReloadingForScrape : bool;
  reloadingTabId : option Z;
  liveIntervals : list nat;
  nextHandle : nat;
}.

Definition initial : State :=
  {| refreshIntervalId := None; twitterTabId := None; isReloadingForScrape := false;
     reloadingTabId := None; liveIntervals := []; nextHandle := 0 |}.

(** Handlers run in a state monad that logs the host calls. *)
Definition M (A : Type) : Type := State -> A * State * list Action.

Definition ret {A} (a : A) : M A := fun s => (a, s, []).
Definition bind {A B} (m : M A) (k : A -> M B) : M B :=
  fun s => let '(a, s1, l1) := m s in
           let '(b, s2, l2) := k a s1 in (b, s2, l1 ++ l2).
Definition get : M State := fun s => (s, s, []).
Definition modify (f : State -> State) : M unit := fun s => (tt, f s, []).
Definition emit (a : Action) : M unit := fun s => (tt, s, [a]).

#[local] Instance M_ret : MRet M := @ret.
#[local] Instance M_bind : MBind M := fun A B k m => bind m k.

Definition set_refreshIntervalId (v : option nat) : M unit :=
  modify (fun s =>
    {| refreshIntervalId := v; twitterTabId := twitterTabId s;
       isReloadingForScrape := isReloadingForScrape s; reloadingTabId := reloadingTabId s;
       liveIntervals := liveIntervals s; nextHandle := nextHandle s |}).
Definition set_twitterTabId (v : option Z) : M unit :=
  modify (fun s =>
    {| refreshIntervalId := refreshIntervalId s; twitterTabId := v;
       isReloadingForScrape := isReloadingForScrape s; reloadingTabId := reloadingTabId s;
       liveIntervals := liveIntervals s; nextHandle := nextHandle s |}).
Definition set_isReloadingForScrape (v : bool) : M unit :=
  modify (fun s =>
    {| refreshIntervalId := refreshIntervalId s; twitterTabId := twitterTabId s;
       isReloadingForScrape := v; reloadingTabId := reloadingTabId s;
       liveIntervals := liveIntervals s; nextHandle := nextHandle s |}).
Definition set_reloadingTabId (v : option Z) : M unit :=
  modify (fun s =>
    {| refreshIntervalId := refreshIntervalId s; twitterTabId := twitterTabId s;
       isReloadingForScrape := isReloadingForScrape s; reloadingTabId := v;
       liveIntervals := liveIntervals s; nextHandle := nextHandle s |}).

(** The host side of [clearInterval(h)] and [setInterval(callback, 10000)]. *)
Definition host_clearInterval (h : nat) : M unit :=
  modify (fun s =>
    {| refreshIntervalId := refreshIntervalId s; twitterTabId := twitterTabId s;
       isReloadingForScrape := isReloadingForScrape s; reloadingTabId := reloadingTabId s;
       liveIntervals := filter (fun k => k ≠ h) (liveIntervals s);
       nextHandle := nextHandle s |}) ;;
  emit (clearInterval h).

Definition host_setInterval : M nat :=
  s ← get;
  let h := nextHandle s in
  modify (fun s =>
    {| refreshIntervalId := refreshIntervalId s; twitterTabId := twitterTabId s;
       isReloadingForScrape := isReloadingForScrape s; reloadingTabId := reloadingTabId s;
       liveIntervals := h :: liveIntervals s; nextHandle := S h |}) ;;
  emit (setInterval h) ;;
  ret h.

Definition stopPeriodicRefresh : M unit :=
  s ← get;
  match refreshIntervalId s with
  | Some h => host_clearInterval h ;; set_refreshIntervalId None
  | None => ret tt
  end.

Definition startPeriodicRefresh : M unit :=
  stopPeriodicRefresh ;;
  s ← get;
  match twitterTabId s with
  | None => ret tt
  | Some _ => h ← host_setInterval; set_refreshIntervalId (Some h)
  end.

(** The function given to [setInterval]: what runs when the timer fires. *)
Definition intervalCallback : M unit :=
  s ← get;
  match twitterTabId s with
  | None => stopPeriodicRefresh
  | Some _ =>
      s ← get;
      match twitterTabId s with
      | None => stopPeriodicRefresh
      | Some tab =>
          set_isReloadingForScrape true ;;
          set_reloadingTabId (Some tab) ;;
          emit (tabs_reload tab)
      end
  end.

(** The callback of [chrome.tabs.reload]; [lastError] tells whether
    [chrome.runtime.lastError] is set. *)
Definition reloadCallback (lastError : bool) : M unit :=
  if lastError then
    stopPeriodicRefresh ;;
    set_twitterTabId None ;;
    set_isReloadingForScrape false ;;
    set_reloadingTabId None
  else ret tt.

Fixpoint startsWith (prefix s : jsstring) : bool :=
  match prefix, s with
  | [], _ => true
  | p :: prefix', c :: s' => (p =? c) && startsWith prefix' s'
  | _ :: _, [] => false
  end.

Definition onHome (url : option jsstring) : bool :=
  match url with
  | Some (c :: r) =>
      startsWith (lit "https://x.com/home") (c :: r)
      || startsWith (lit "https://twitter.com/home") (c :: r)
  | _ => false
  end.

Definition same_tab (tabId : Z) (tracked : option Z) : bool :=
  match tracked with Some t => tabId =? t | None => false end.

(** The [chrome.tabs.onUpdated] listener; [complete] tells whether
    [changeInfo.status] is 'complete'. *)
Definition onUpdated (tabId : Z) (complete : bool) (url : option jsstring) : M unit :=
  s ← get;
  if isReloadingForScrape s && same_tab tabId (reloadingTabId s) && complete then
    set_isReloadingForScrape false ;;
    set_reloadingTabId None ;;
    if onHome url then emit (tabs_sendMessage tabId)
    else stopPeriodicRefresh ;; set_twitterTabId None
  else if same_tab tabId (reloadingTabId s) && complete && negb (isReloadingForScrape s) then
    set_reloadingTabId None
  else ret tt.

(** The callback of the scrape request sent after a reload. *)
Definition reloadedSendCallback (lastError : bool) : M unit :=
  if lastError then stopPeriodicRefresh else ret tt.

Definition sendScrapeRequestToTabAndUpdateState (tabId : Z) : M unit :=
  set_twitterTabId (Some tabId) ;;
  emit (tabs_sendMessage tabId).

(** The callback of the scrape request sent by a manual fetch. *)
Definition fetchSendCallback (lastError : bool) : M unit :=
  if lastError then
    emit (runtime_sendMessage FETCH_TWEETS_ERROR) ;;
    set_twitterTabId None ;;
    stopPeriodicRefresh
  else ret tt.

(** A tab id is used as a condition: undefined and 0 are falsy. *)
Definition truthy_id (i : option Z) : option Z :=
  match i with
  | Some t => if t =? 0 then None else Some t
  | None => None
  end.

(** The callbacks of [chrome.tabs.update] and [chrome.tabs.create]. *)
Definition tabReadyCallback (t : option Tab) : M unit :=
  match t with
  | Some t' =>
      match truthy_id (tab_id t') with
      | Some i => sendScrapeRequestToTabAndUpdateState i
      | None => emit (runtime_sendMessage FETCH_TWEETS_ERROR) ;; stopPeriodicRefresh
      end
  | None => emit (runtime_sendMessage FETCH_TWEETS_ERROR) ;; stopPeriodicRefresh
  end.

(** The callback of [chrome.tabs.query]. *)
Definition queryCallback (tabs : list Tab) : M unit :=
  let homeTabs := filter (fun t => onHome (tab_url t) = true) tabs in
  match homeTabs with
  | targetTab :: _ =>
      match truthy_id (tab_id targetTab) with
      | Some i =>
          if negb (tab_active targetTab) then emit (tabs_update i)
          else sendScrapeRequestToTabAndUpdateState i
      | None => ret tt
      end
  | [] => emit tabs_create
  end.

(** The [chrome.runtime.onMessage] listener, by message type. *)
Definition on_FETCH_TWEETS_REQUEST : M unit :=
  stopPeriodicRefresh ;; emit tabs_query.

Definition on_SCRAPE_COMPLETE_RESPONSE : M unit :=
  emit (runtime_sendMessage TWEET_DATA_RESPONSE) ;;
  s ← get;
  match twitterTabId s with
  | Some _ => startPeriodicRefresh
  | None => ret tt
  end.

Definition on_SCRAPE_ERROR_RESPONSE : M unit :=
  emit (runtime_sendMessage FETCH_TWEETS_ERROR) ;;
  stopPeriodicRefresh.

(** Everything the host can deliver to the script. *)
Inductive Event :=
  | TimerFired (handle : nat)
  | ReloadDone (lastError : bool)
  | TabUpdated (tabId : Z) (complete : bool) (url : option jsstring)
  | ReloadedSendDone (lastError : bool)
  | FetchSendDone (lastError : bool)
  | TabReady (t : option Tab)
  | QueryDone (tabs : list Tab)
  | FetchRequest
  | ScrapeComplete
  | ScrapeError.

Definition handle (e : Event) : M unit :=
  match e with
  | TimerFired _ => intervalCallback
  | ReloadDone err => reloadCallback err
  | TabUpdated tabId complete url => onUpdated tabId complete url
  | ReloadedSendDone err => reloadedSendCallback err
  | FetchSendDone err => fetchSendCallback err
  | TabReady t => tabReadyCallback t
  | QueryDone tabs => queryCallback tabs
  | FetchRequest => on_FETCH_TWEETS_REQUEST
  | ScrapeComplete => on_SCRAPE_COMPLETE_RESPONSE
  | ScrapeError => on_SCRAPE_ERROR_RESPONSE
  end.

(** A timer only fires while its interval is live. *)
Definition enabled (e : Event) (s : State) : Prop :=
  match e with
  | TimerFired h => h ∈ liveIntervals s
  | _ => True
  end.

Definition run (e : Event) (s : State) : State * list Action :=
  let '(_, s', acts) := handle e s in (s', acts).

(** The state after a sequence of events. *)
Definition runs (es : list Event) (s : State) : State :=
  foldl (fun s e => fst (run e s)) s es.

Inductive reachable : State -> Prop :=
  | reach_initial : reachable initial
  | reach_step s e : reachable s -> enabled e s -> reachable (fst (run e s)).

(** No interval runs apart from the one whose handle the script holds. *)
Definition timer_tracked (s : State) : Prop :=
  liveIntervals s = match refreshIntervalId s with Some h => [h] | None => [] end.

(** The handle and the live intervals are in step, and an interval is only
    live while a tab is tracked. *)
Definition in_step (s : State) : Prop :=
  timer_tracked s /\ (twitterTabId s = None -> refreshIntervalId s = None).

Definition is_reload (a : Action) : bool :=
  match a with tabs_reload _ => true | _ => false end.
Definition is_scrape_request (a : Action) : bool :=
  match a with tabs_sendMessage _ => true | _ => false end.

End Background.

(** ** The scraper: reading the tweets in view (pages/content, twitterScraper) *)

Module Viewport.
Import JS.

(** A link under the article whose href attribute starts with a slash. *)
Record UserLink := {
  link_text : jsstring;           (* textContent *)
  link_href : jsstring;           (* the href property: the resolved URL *)
  in_userName : bool;             (* closest('div[data-testid="User-Name"]') is not null *)
}.

(** What [scrapeCurrentViewPortTweets] reads from one article. *)
Record Article := {
  socialContext : option jsstring;  (* text of [data-testid="socialContext"], if present *)
  spans : list jsstring;            (* text of every span *)
  userName : option jsstring;       (* text of [data-testid="User-Name"], if present *)
  userLinks : list UserLink;        (* in document order *)
  datetime : option jsstring;       (* datetime attribute of the time element, if both exist *)
  tweetText : option jsstring;      (* text of [data-testid="tweetText"], if present *)
}.

Section Host.
Variable LocalTZA : Z -> Z.
Variable Date_parse : jsstring -> Date.

(** [formatDisplayTimestamp(dateTimeString)]: null and the empty string
    are falsy. The body of the try block is that of the content script's
    [formatTimestamp]; neither the Date constructor nor a getter raises, so
    the handler that returns 'Invalid Date' has nothing to catch. *)
Definition formatDisplayTimestamp (dateTimeString : option jsstring) : jsstring :=
  match dateTimeString with
  | Some (c :: r) => Content.formatTimestamp LocalTZA (Date_parse (c :: r))
  | _ => lit "N/A"
  end.

(** The two ad checks: the social context mentions Promoted or Ad, or some
    span reads exactly Promoted or Ad. *)
Definition promotedContext (a : Article) : bool :=
  match socialContext a with
  | Some text => includes (lit "Promoted") text || includes (lit "Ad") text
  | None => false
  end.

Definition isPromoted (a : Article) : bool :=
  existsb (fun span => bool_decide (span = lit "Promoted") || bool_decide (span = lit "Ad"))
    (spans a).

(** The loop over the user links: the last link that qualifies wins. *)
Definition authorHandleOf (links : list UserLink) : jsstring :=
  foldl (fun authorHandle link =>
           let textContent := link_text link in
           if negb (bool_decide (textContent = []))
              && Background.startsWith (lit "@") textContent
              && includes (skipn 1 textContent) (link_href link)
           then if in_userName link then trim textContent else authorHandle
           else authorHandle)
        (lit "N/A") links.

(** The body of the loop for one article, read at the instant [now];
    [None]: nothing is pushed. *)
Definition scrapeTweet (a : Article) (now : Z) : option Scraper.RawTweet :=
  if promotedContext a then None
  else if isPromoted a then None
  else
    let authorName := Content.or_else (trim <$> userName a) (lit "N/A") in
    let authorHandle := authorHandleOf (userLinks a) in
    let author := authorName ++ lit " (" ++ authorHandle ++ lit ")" in
    let rawDatetime := Content.or_else (datetime a) (isoString now) in
    let displayTimestamp := formatDisplayTimestamp (Some rawDatetime) in
    let content := Content.or_else (trim <$> tweetText a) (lit "N/A") in
    if negb (bool_decide (content = lit "N/A"))
       && negb (bool_decide (displayTimestamp = lit "N/A"))
       && negb (bool_decide (displayTimestamp = lit "Invalid Date"))
    then Some {| Scraper.author := author; Scraper.displayTimestamp := displayTimestamp;
                 Scraper.content := content; Scraper.rawDatetime := rawDatetime |}
    else None.

Definition scrapeCurrentViewPortTweets (articles : list (Article * Z))
    : list Scraper.RawTweet :=
  omap (fun '(a, now) => scrapeTweet a now) articles.
End Host.

End Viewport.

(** ** The side panel that merges the scraper's payload *)

Module SidePanel.
Import JS.

Record Tweet := {
  id : jsstring;
  author : jsstring;
  content : jsstring;
  timestamp : jsstring;           (* ISO string, used to sort *)
  displayTimestamp : jsstring;
  rawDatetime : jsstring;
}.

(** What [saveTweetsToStorage] writes: the tweets, and the timestamp of the
    last fetch when it is given and not empty. *)
Record Saved := {
  storedTweets : list Tweet;
  lastFetchTimestamp : option jsstring;
}.

Definition generateTweetId (rawTweet : Scraper.RawTweet) : jsstring :=
  Scraper.author rawTweet ++ lit "-" ++ Scraper.rawDatetime rawTweet.

Section Host.
Variable Date_parse : jsstring -> Date.
(** [a.localeCompare(b)] of the host's collation. *)
Variable localeCompare : jsstring -> jsstring -> Z.

(** [getSortableTimestamp(rawDatetime)] at the instant [now]; the second
    fallback is the handler of the try block, which nothing reaches. *)
Definition getSortableTimestamp (rawDatetime : jsstring) (now : Z) : jsstring :=
  let date := Date_parse rawDatetime in
  if isNaN (getTime date) then isoString now
  else default (isoString now) (toISOString date).

Definition transform (rawTweet : Scraper.RawTweet) (now : Z) : Tweet :=
  {| author := Scraper.author rawTweet;
     content := Scraper.content rawTweet;
     displayTimestamp := Scraper.displayTimestamp rawTweet;
     rawDatetime := Scraper.rawDatetime rawTweet;
     id := generateTweetId rawTweet;
     timestamp := getSortableTimestamp (Scraper.rawDatetime rawTweet) now |}.

(** The handler of TWEET_DATA_RESPONSE: the payload, each tweet with the
    instant at which it is transformed, is merged into the displayed
    tweets. Returns the tweets displayed afterwards and what is saved, if
    anything. The sort is the stable insertion of [Array_sort]; its
    outcome is the engine's when the collation orders the timestamps
    consistently. *)
Definition onTweetData (prevTweets : list Tweet) (payload : list (Scraper.RawTweet * Z))
    : list Tweet * option Saved :=
  let transformedNewTweets := (fun '(rawTweet, now) => transform rawTweet now) <$> payload in
  let existingTweetIds : gset jsstring := list_to_set (id <$> prevTweets) in
  let trulyNewTweets := filter (fun t => id t ∉ existingTweetIds) transformedNewTweets in
  if (length trulyNewTweets =? 0)%nat then (prevTweets, None)
  else
    let combinedTweets :=
      Array_sort (fun a b => Some (localeCompare (timestamp b) (timestamp a)))
        (prevTweets ++ trulyNewTweets) in
    let updatedTweetsForDisplayAndStorage := slice0 20 combinedTweets in
    let newLastFetchTimestamp :=
      match updatedTweetsForDisplayAndStorage with
      | t :: _ => match timestamp t with [] => None | c :: r => Some (c :: r) end
      | [] => None
      end in
    (updatedTweetsForDisplayAndStorage,
     Some {| storedTweets := updatedTweetsForDisplayAndStorage;
             lastFetchTimestamp := newLastFetchTimestamp |}).
End Host.

End SidePanel.

(** ** The hashed tweet id of the earlier side panel and scraper *)

Module TweetHash.
Import JS.

Record RawTweet := {
  author : jsstring;
  content : jsstring;
  timestamp : jsstring;
}.

Definition keyString (rawTweet : RawTweet) : jsstring :=
  timestamp rawTweet ++ lit "-" ++ author rawTweet ++ lit "-"
  ++ substring 0 50 (content rawTweet).

(** One turn of the loop: [hash = (hash << 5) - hash + char; hash |= 0].
    The shift yields a 32-bit integer; the subtraction and the addition
    are exact on doubles at this magnitude. *)
Definition hash_step (hash char : Z) : Z :=
  ToInt32 (ToInt32 (hash * 32) - hash + char).

Definition hashOf (keyString : jsstring) : Z := foldl hash_step 0 keyString.

Definition generateTweetId (rawTweet : RawTweet) : jsstring :=
  lit "tweet-" ++ toString16 (Z.abs (hashOf (keyString rawTweet))).

Definition generateTweetIdForContentScript (tweet : RawTweet) : jsstring :=
  lit "cs-tweet-" ++ toString16 (Z.abs (hashOf (keyString tweet))).

(** The hash of Java's [String.hashCode], before it is cut to 32 bits. *)
Definition polynomial31 (s : jsstring) : Z := foldl (fun h c => 31 * h + c) 0 s.

End TweetHash.

(** ** The side panel that shows the stored posts: age of a post *)

Module TimeAgo.
Import JS.

Section Host.
(** [new Date(s)] of the engine. *)
Variable Date_parse : jsstring -> Date.

(** The arithmetic of [formatTimeAgo] is on doubles. Time values are
    integers below 2^53, which doubles hold exactly; their difference is
    below 2^54 and is rounded. [to_double d] is the double nearest to an
    integer [d] below 2^54 in magnitude: [d] itself up to 2^53, beyond that
    the nearest even integer, a tie going to the multiple of 4. *)
Definition to_double (d : Z) : Z :=
  if Z.abs d <=? 2 ^ 53 then d
  else if Z.even d then d
  else if (d + 1) mod 4 =? 0 then d + 1 else d - 1.

(** [Math.floor(a / b)] for a double [a] that is an integer below 2^54 in
    magnitude and [b] one of the three divisors of [formatTimeAgo]. The
    quotient is rounded to the nearest double before it is floored. With
    [q] the floor of the exact quotient and [r] the remainder, the rounded
    quotient reaches [q + 1] exactly when the exact one, [(b - r) / b]
    below it, lies within half the distance between [q + 1] and the double
    before it (the one nearer to [q]), which is 2^(e - 53) for doubles of
    magnitude in [2^e, 2^(e + 1)); a tie cannot occur for these divisors. *)
Definition floor_div (a : number) (b : Z) : number :=
  option_map
    (fun x =>
       let q := x / b in
       let r := x mod b in
       let m := if 0 <=? q then q else - (q + 1) in
       if (r =? 0) || (m =? 0) then q
       else if (b - r) * 2 ^ (53 - Z.log2 m) <=? b then q + 1 else q)
    a.

(** [a < b] on numbers: false when [a] is NaN. *)
Definition num_lt (a : number) (b : Z) : bool :=
  match a with Some x => x <? b | None => false end.

(** The stored timestamp rewritten for the Date parser. *)
Definition parserInput (timestamp : jsstring) : jsstring :=
  replace_first 32 84 (replace_all 47 45 timestamp).

(** [formatTimeAgo(timestamp)] at the instant [now], a time value. *)
Definition formatTimeAgo (timestamp : jsstring) (now : Z) : jsstring :=
  let tweetTime := Date_parse (parserInput timestamp) in
  let diffMs := option_map to_double (num_sub (Some now) (getTime tweetTime)) in
  let diffMins := floor_div diffMs (1000 * 60) in
  let diffHours := floor_div diffMs (1000 * 60 * 60) in
  let diffDays := floor_div diffMs (1000 * 60 * 60 * 24) in
  if num_lt diffMins 60 then Number_toString diffMins ++ [0x5206; 0x949F; 0x524D]
  else if num_lt diffHours 24 then Number_toString diffHours ++ [0x5C0F; 0x65F6; 0x524D]
  else Number_toString diffDays ++ [0x5929; 0x524D].
End Host.

End TimeAgo.

(** ** Concrete data on which the model is run *)

Module Samples.
Import JS.

(** A host in UTC whose Date parser is [parseISO]. *)
Definition utc (_ : Z) : Z := 0.

Definition reading : Content.Reading :=
  {| Content.clock := 1698400000000; Content.fallbackClock := 1698400000123;
     Content.randomDigits := lit "k3j9x0ab"; Content.argumentLimit := 120000 |}.

(** Two tweets of one author, as the feed renders them. *)
Definition report1 : Content.TweetElement :=
  {| Content.isAd := false;
     Content.userName := Some (lit "Daily Weather Report");
     Content.tweetText := Some (lit "Sunny today");
     Content.timeElement :=
       Some {| Content.datetime := Some (lit "2023-10-27T05:23:17.000Z");
               Content.timeText := lit "2h" |} |}.

Definition report2 : Content.TweetElement :=
  {| Content.isAd := false;
     Content.userName := Some (lit "Daily Weather Report");
     Content.tweetText := Some (lit "Rain tomorrow");
     Content.timeElement :=
       Some {| Content.datetime := Some (lit "2023-10-27T06:00:00.000Z");
               Content.timeText := lit "1h" |} |}.

(** A tweet in Chinese with an emoji (a surrogate pair), and a text that
    ends in a lone surrogate. *)
Definition zhongwen : jsstring := [0x4E2D; 0x6587].
Definition greeting : jsstring := [0x4F60; 0x597D; 0xD83D; 0xDE00].
Definition broken : jsstring := lit "cut" ++ [0xD83D].

Definition later : Content.Reading :=
  {| Content.clock := 1698400060000; Content.fallbackClock := 1698400060456;
     Content.randomDigits := lit "zz81m2qp"; Content.argumentLimit := 120000 |}.



(** A tweet whose time element has no datetime attribute and shows a
    relative time, here two hours, and one that shows a relative time of two
    hundred million days. *)
Definition relative (text : jsstring) : Content.TweetElement :=
  {| Content.isAd := false;
     Content.userName := Some (lit "Daily Weather Report");
     Content.tweetText := Some (lit "Cloudy");
     Content.timeElement := Some {| Content.datetime := None; Content.timeText := text |} |}.

Definition two_hours_ago : Content.TweetElement := relative (lit "2h").
Definition ages_ago : Content.TweetElement := relative (lit "200000000d").

(** A tweet whose datetime attribute is not a date. *)
Definition undated : Content.TweetElement :=
  {| Content.isAd := false;
     Content.userName := Some (lit "Daily Weather Report");
     Content.tweetText := Some (lit "Windy");
     Content.timeElement :=
       Some {| Content.datetime := Some (lit "yesterday");
               Content.timeText := lit "Oct 26" |} |}.

(** What the extraction of [report1] yields. *)
Definition post1 : Storage.TwitterPost :=
  {| Storage.id := lit "RGFpbHkgV2VhdGhl";
     Storage.author := lit "Daily Weather Report";
     Storage.content := lit "Sunny today";
     Storage.timestamp := lit "2023/10/27 05:23:17";
     Storage.publishTime := lit "2023-10-27T05:23:17.000Z" |}.

Definition reports : list Storage.TwitterPost :=
  Content.extractTweets utc parseISO [(report1, reading); (report2, reading)].

(** A store that holds the first of the two, fetched at the instant
    of [reading]. *)
Definition store1 : Storage.TwitterStorageState :=
  fst (Storage.addPosts parseISO Storage.defaultState (take 1 reports) (Content.clock reading)).

(** Posts one second apart, the first at 2023-10-27T05:23:18Z. *)
Definition numbered (i : nat) : Storage.TwitterPost :=
  {| Storage.id := lit "post" ++ Z_toString (Z.of_nat i);
     Storage.author := lit "author";
     Storage.content := lit "content";
     Storage.timestamp := Content.formatTimestamp utc (Some (1698384197000 + 1000 * Z.of_nat i));
     Storage.publishTime := isoString (1698384197000 + 1000 * Z.of_nat i) |}.

Definition batch25 : list Storage.TwitterPost := numbered <$> seq 1 25.

(** Feeds for the scroll collector. Tweet number [i] of an author. *)
Definition raw (i : nat) : Scraper.RawTweet :=
  {| Scraper.author := lit "Daily Weather Report (@weather)";
     Scraper.displayTimestamp := Content.formatTimestamp utc (Some (1698384197000 + 1000 * Z.of_nat i));
     Scraper.content := lit "Report " ++ Z_toString (Z.of_nat i);
     Scraper.rawDatetime := isoString (1698384197000 + 1000 * Z.of_nat i) |}.

(** Each scroll brings three more tweets into view; the same two tweets
    stay in view; each scroll brings one more tweet; and one more tweet per
    scroll until the feed runs dry after nine. *)
Definition steady (k : nat) : list Scraper.RawTweet := raw <$> seq 0 (3 * S k).
Definition stalled (_ : nat) : list Scraper.RawTweet := raw <$> [0; 1]%nat.
Definition trickle (k : nat) : list Scraper.RawTweet := raw <$> seq 0 (S k).
Definition dry (k : nat) : list Scraper.RawTweet := raw <$> seq 0 (S (k `min` 8)).

(** The collector at the end of its run over the steady feed. *)
Definition steady_run : Scraper.Collector :=
  default Scraper.start (fst <$> Scraper.scrapeTweetsWithScrolling steady).

(** A tweet of another author, two hours later, and what its extraction
    yields. *)
Definition bulletin : Content.TweetElement :=
  {| Content.isAd := false;
     Content.userName := Some (lit "Harbour Bulletin 24");
     Content.tweetText := Some (lit "Ferry delayed");
     Content.timeElement :=
       Some {| Content.datetime := Some (lit "2023-10-27T07:30:00.000Z");
               Content.timeText := lit "5m" |} |}.

Definition bulletin_post : Storage.TwitterPost :=
  {| Storage.id := lit "SGFyYm91ciBCdWxs";
     Storage.author := lit "Harbour Bulletin 24";
     Storage.content := lit "Ferry delayed";
     Storage.timestamp := lit "2023/10/27 07:30:00";
     Storage.publishTime := lit "2023-10-27T07:30:00.000Z" |}.

(** The home timeline. *)
Definition home : jsstring := lit "https://x.com/home".

(** The Date parser of a host in UTC on a date and time without a zone,
    which is local time: YYYY-MM-DDTHH:mm:ss. *)
Definition parseLocal (s : jsstring) : Date := parseISO (s ++ lit ".000Z").

(** An article as the scraper reads it, with a given datetime attribute and
    social context. *)
Definition article (socialContext datetime : option jsstring) : Viewport.Article :=
  {| Viewport.socialContext := socialContext;
     Viewport.spans := [lit "Daily Weather Report"; lit "@weather"; lit "Sunny today"];
     Viewport.userName := Some (lit "Daily Weather Report@weather");
     Viewport.userLinks :=
       [ {| Viewport.link_text := lit "Daily Weather Report";
            Viewport.link_href := lit "https://x.com/weather";
            Viewport.in_userName := true |};
         {| Viewport.link_text := lit "@weather";
            Viewport.link_href := lit "https://x.com/weather";
            Viewport.in_userName := true |} ];
     Viewport.datetime := datetime;
     Viewport.tweetText := Some (lit " Sunny today ") |}.

(** A collation that compares code unit by code unit. *)
Fixpoint codeUnitCompare (a b : jsstring) : Z :=
  match a, b with
  | [], [] => 0
  | [], _ :: _ => -1
  | _ :: _, [] => 1
  | x :: a', y :: b' =>
      if x <? y then -1 else if y <? x then 1 else codeUnitCompare a' b'
  end.

(** The background script once a tab has been found and a scrape has
    completed: tab 7 is tracked and an interval runs. *)
Definition tab7 : Background.Tab :=
  {| Background.tab_id := Some 7; Background.tab_url := Some home;
     Background.tab_active := true |}.

Definition polling : Background.State :=
  Background.runs [Background.TabReady (Some tab7); Background.ScrapeComplete]
    Background.initial.

(** The same script while it waits for tab 7 to finish reloading. *)
Definition reloading : Background.State :=
  Background.runs [Background.TimerFired 0] polling.

End Samples.

(** * Properties *)

(** Closed facts about concrete data are settled by evaluation. *)
Ltac by_evaluation := apply (bool_decide_unpack _); vm_compute; exact I.

(** ** The host primitives on known values *)

Example iso_epoch : JS.toISOString (Some 0) = Some (JS.lit "1970-01-01T00:00:00.000Z").
Proof. reflexivity. Qed.
Example iso_2023 : JS.toISOString (Some 1698384197000) = Some (JS.lit "2023-10-27T05:23:17.000Z").
Proof. reflexivity. Qed.
Example iso_leap : JS.toISOString (Some 1709251199999) = Some (JS.lit "2024-02-29T23:59:59.999Z").
Proof. reflexivity. Qed.
Example iso_neg : JS.toISOString (Some (-1)) = Some (JS.lit "1969-12-31T23:59:59.999Z").
Proof. reflexivity. Qed.

Example utf8_ascii : JS.TextEncoder_encode (JS.lit "Az") = [65; 122].
Proof. reflexivity. Qed.
(* U+4E2D, U+1F600 as a surrogate pair, a lone high surrogate *)
Example utf8_cjk : JS.TextEncoder_encode [0x4E2D; 0xD83D; 0xDE00; 0xD83D] =
  [0xE4; 0xB8; 0xAD; 0xF0; 0x9F; 0x98; 0x80; 0xEF; 0xBF; 0xBD].
Proof. reflexivity. Qed.
Example btoa_man : JS.btoa (JS.lit "Man") = Some (JS.lit "TWFu").
Proof. reflexivity. Qed.
Example btoa_ma : JS.btoa (JS.lit "Ma") = Some (JS.lit "TWE=").
Proof. reflexivity. Qed.
Example btoa_m : JS.btoa (JS.lit "M") = Some (JS.lit "TQ==").
Proof. reflexivity. Qed.
Example btoa_hello : JS.btoa (JS.lit "hello world!?") = Some (JS.lit "aGVsbG8gd29ybGQhPw==").
Proof. reflexivity. Qed.
Example btoa_bad : JS.btoa [0x4E2D] = None.
Proof. reflexivity. Qed.
Example enc_uri : JS.encodeURIComponent (JS.lit "a b%" ++ [0xE9]) = Some (JS.lit "a%20b%25%C3%A9").
Proof. reflexivity. Qed.
Example unesc : JS.unescape (JS.lit "a%20b%25%C3%A9%u4E2Dz%zz") = JS.lit "a b%" ++ [0xC3; 0xA9; 0x4E2D] ++ JS.lit "z%zz".
Proof. reflexivity. Qed.
Example match1 : JS.match_relative (JS.lit "2h") = Some (JS.lit "2", 104).
Proof. reflexivity. Qed.
Example match2 : JS.match_relative (JS.lit "Dec 1st, 12 x 34m5") = Some (JS.lit "1", 115).
Proof. reflexivity. Qed.
Example match3 : JS.match_relative (JS.lit "Oct 27") = None.
Proof. reflexivity. Qed.
Example parse1 : JS.parseISO (JS.lit "2023-10-27T05:23:17.000Z") = Some 1698384197000.
Proof. reflexivity. Qed.
Example parse2 : JS.parseISO (JS.lit "yesterday") = None.
Proof. reflexivity. Qed.
Example sort1 : JS.Array_sort (fun a b => Some (b - a)) [3; 1; 2; 3; 5] = [5; 3; 3; 2; 1].
Proof. reflexivity. Qed.

(** ** Sorting *)

Section SortFacts.
Context {A : Type} (comparefn : A -> A -> JS.number) (k : A -> Z).

Local Abbreviation by_key_desc := (JS.by_key_desc comparefn k).

Lemma by_key_desc_cons x l : by_key_desc (x :: l) -> by_key_desc l.
Proof. intros H a b Ha Hb. apply H; by apply list_elem_of_further. Qed.

Lemma by_key_desc_perm l l' : l ≡ₚ l' -> by_key_desc l -> by_key_desc l'.
Proof. intros Hp H a b Ha Hb. apply H; by rewrite Hp. Qed.

Lemma sort_insert_perm x l : JS.sort_insert comparefn x l ≡ₚ x :: l.
Proof.
  induction l as [|y l IH]; simpl; [done|].
  destruct (_ <=? 0); [done|]. rewrite IH. apply perm_swap.
Qed.

Lemma Array_sort_perm l : JS.Array_sort comparefn l ≡ₚ l.
Proof.
  induction l as [|x l IH]; simpl; [done|].
  rewrite sort_insert_perm. by rewrite IH.
Qed.

Lemma Array_sort_length l : length (JS.Array_sort comparefn l) = length l.
Proof. by rewrite Array_sort_perm. Qed.

Lemma sort_insert_desc x l :
  by_key_desc (x :: l) ->
  StronglySorted (fun a b => k b <= k a) l ->
  StronglySorted (fun a b => k b <= k a) (JS.sort_insert comparefn x l).
Proof.
  intros Hk Hs. induction Hs as [|y l Hs IH Hy]; simpl.
  - repeat constructor.
  - assert (Hxy : JS.SortCompare comparefn x y = k y - k x).
    { apply Hk; [left | right; left]. }
    destruct (Z.leb_spec (JS.SortCompare comparefn x y) 0) as [Hle|Hgt].
    + constructor; [by constructor|].
      constructor; [lia|].
      eapply Forall_impl; [exact Hy|]. simpl. intros; lia.
    + constructor.
      * apply IH. intros a b Ha Hb. apply Hk.
        -- apply elem_of_cons in Ha as [->|Ha]; [left | right; by right].
        -- apply elem_of_cons in Hb as [->|Hb]; [left | right; by right].
      * rewrite sort_insert_perm. constructor; [lia | done].
Qed.

Lemma Array_sort_desc l :
  by_key_desc l -> StronglySorted (fun a b => k b <= k a) (JS.Array_sort comparefn l).
Proof.
  induction l as [|x l IH]; intros Hk; simpl; [constructor|].
  apply sort_insert_desc.
  - eapply by_key_desc_perm; [|exact Hk]. by rewrite Array_sort_perm.
  - apply IH. by eapply by_key_desc_cons.
Qed.

(** A list that the comparator already accepts pairwise is left as it is. *)
Lemma Array_sort_sorted l :
  Sorted (fun a b => JS.SortCompare comparefn a b <= 0) l -> JS.Array_sort comparefn l = l.
Proof.
  induction 1 as [|x l Hs IH Hx]; simpl; [done|].
  rewrite IH. destruct Hx as [|y l Hxy]; simpl; [done|].
  destruct (Z.leb_spec (JS.SortCompare comparefn x y) 0); [done | lia].
Qed.

Lemma sort_insert_last x l :
  Forall (fun y => 0 < JS.SortCompare comparefn x y) l ->
  JS.sort_insert comparefn x l = l ++ [x].
Proof.
  induction 1 as [|y l Hy _ IH]; simpl; [done|].
  destruct (Z.leb_spec (JS.SortCompare comparefn x y) 0); [lia|]. by rewrite IH.
Qed.

(** Keys that strictly increase along the list: sorting reverses it. *)
Lemma Array_sort_increasing l :
  by_key_desc l ->
  StronglySorted (fun a b => k a < k b) l ->
  JS.Array_sort comparefn l = rev l.
Proof.
  intros Hk Hs. induction Hs as [|x l Hs IH Hx]; simpl; [done|].
  rewrite IH by (by eapply by_key_desc_cons).
  apply sort_insert_last. apply Forall_forall. intros y Hy.
  apply list_elem_of_In, in_rev, list_elem_of_In in Hy.
  rewrite Forall_forall in Hx.
  rewrite Hk; [|left|by right]. specialize (Hx y Hy). lia.
Qed.
End SortFacts.

(** ** The retention store *)

Section StoreFacts.
Import JS Storage.
Variable Date_parse : jsstring -> Date.

Local Abbreviation valid := (valid_time Date_parse).
Local Abbreviation time := (instant Date_parse).
Local Abbreviation cmp := (byPublishTimeDesc Date_parse).

Lemma SortCompare_valid a b :
  valid a -> valid b -> SortCompare cmp a b = time b - time a.
Proof.
  unfold valid_time, instant, SortCompare, byPublishTimeDesc, getTime.
  intros [ta ->] [tb ->]. reflexivity.
Qed.

Lemma by_key_desc_valid l : Forall valid l -> by_key_desc cmp time l.
Proof.
  rewrite Forall_forall. intros H a b Ha Hb. apply SortCompare_valid; by apply H.
Qed.

Lemma descending_accepted l :
  Forall valid l -> descending Date_parse l ->
  Sorted (fun a b => SortCompare cmp a b <= 0) l.
Proof.
  intros Hv Hd. apply StronglySorted_Sorted in Hd.
  induction Hd as [|x l Hs IH Hx]; [constructor|].
  apply Forall_cons in Hv as [Hvx Hv].
  constructor; [by apply IH|].
  destruct Hx as [|y l Hxy]; constructor.
  apply Forall_cons in Hv as [Hvy _].
  rewrite SortCompare_valid by done. lia.
Qed.

(** Screening a batch against the stored ids. *)
Lemma screen_known (known batch : list TwitterPost) :
  Forall (fun p => id p ∈ id <$> known) batch ->
  filter (fun post => id post ∉@{gset jsstring} list_to_set (id <$> known)) batch = [].
Proof.
  induction 1 as [|p batch Hp _ IH]; [done|].
  rewrite filter_cons, IH. destruct (decide _) as [Hn|_]; [|done].
  exfalso. apply Hn. by apply elem_of_list_to_set.
Qed.

Lemma screen_empty_store (known batch : list TwitterPost) :
  known = [] ->
  filter (fun post => id post ∉@{gset jsstring} list_to_set (id <$> known)) batch = batch.
Proof.
  intros ->. induction batch as [|p batch IH]; [done|].
  rewrite filter_cons, IH. destruct (decide _) as [_|Hn]; [done|].
  exfalso. apply Hn. simpl. set_solver.
Qed.

Lemma screen_fresh (known batch : list TwitterPost) p :
  p ∈ filter (fun post => id post ∉@{gset jsstring} list_to_set (id <$> known)) batch ->
  p ∈ batch /\ id p ∉ id <$> known.
Proof.
  rewrite list_elem_of_filter. intros [Hn Hp]. split; [done|].
  intros Hin. apply Hn. by apply elem_of_list_to_set.
Qed.

Lemma addPosts_posts st batch now :
  posts (fst (addPosts Date_parse st batch now)) =
  take 20 (Array_sort cmp
             (filter (fun post => id post ∉@{gset jsstring} list_to_set (id <$> posts st)) batch
              ++ posts st)).
Proof. reflexivity. Qed.

(** What a merge keeps is drawn from the batch and the stored posts. *)
Lemma addPosts_from st batch now p :
  p ∈ posts (fst (addPosts Date_parse st batch now)) -> p ∈ batch \/ p ∈ posts st.
Proof.
  rewrite addPosts_posts. intros Hp.
  eapply elem_of_sublist in Hp; [|apply sublist_take].
  rewrite Array_sort_perm in Hp.
  apply elem_of_app in Hp as [Hp|Hp]; [left|by right].
  by apply screen_fresh in Hp as [Hp _].
Qed.

Lemma addPosts_valid st batch now :
  Forall valid batch -> Forall valid (posts st) ->
  Forall valid (posts (fst (addPosts Date_parse st batch now))).
Proof.
  rewrite !Forall_forall. intros Hb Hs p Hp.
  apply addPosts_from in Hp as [Hp|Hp]; auto.
Qed.

Lemma addPosts_length st batch now :
  (length (posts (fst (addPosts Date_parse st batch now))) <= 20)%nat.
Proof. rewrite addPosts_posts, length_take. lia. Qed.

Lemma StronglySorted_take {A} (R : A -> A -> Prop) n (l : list A) :
  StronglySorted R l -> StronglySorted R (take n l).
Proof.
  intros Hs. revert n. induction Hs as [|x l Hs IH Hx]; intros [|n]; simpl;
    try constructor; [apply IH|].
  apply Forall_forall. intros y Hy. rewrite Forall_forall in Hx. apply Hx.
  eapply elem_of_sublist; [exact Hy | apply sublist_take].
Qed.

Lemma addPosts_descending st batch now :
  Forall valid batch -> Forall valid (posts st) ->
  descending Date_parse (posts (fst (addPosts Date_parse st batch now))).
Proof.
  intros Hb Hs. rewrite addPosts_posts. unfold descending.
  apply StronglySorted_take, Array_sort_desc, by_key_desc_valid.
  apply Forall_app. split; [|done].
  rewrite Forall_forall in Hb |- *. intros p Hp.
  apply screen_fresh in Hp as [Hp _]. by apply Hb.
Qed.

(** Ids stay unique when the batch itself carries no id twice. *)
Lemma addPosts_unique_ids st batch now :
  unique_ids batch -> unique_ids (posts st) ->
  unique_ids (posts (fst (addPosts Date_parse st batch now))).
Proof.
  unfold unique_ids. intros Hb Hs. rewrite addPosts_posts.
  eapply sublist_NoDup; [|apply fmap_sublist, sublist_take].
  rewrite Array_sort_perm, fmap_app. apply NoDup_app. split; [|split; [|done]].
  - eapply sublist_NoDup; [exact Hb|]. apply fmap_sublist, sublist_filter.
  - intros i Hi Hi'. apply list_elem_of_fmap in Hi as (p & -> & Hp).
    by apply screen_fresh in Hp as [_ Hp].
Qed.

(** Along any run of merges of valid posts the stored list is in
    descending order of publish time and holds at most 20 posts. *)
Lemma merges_valid st calls :
  Forall (fun c => Forall valid c.1) calls -> Forall valid (posts st) ->
  Forall valid (posts (merges Date_parse st calls)).
Proof.
  unfold merges. intros Hc. revert st.
  induction Hc as [|[batch now] calls Hb _ IH]; intros st Hs; simpl; [done|].
  apply IH. by apply addPosts_valid.
Qed.

(** X2. Along any run of merges in which no batch carries an id twice,
    from a store whose ids are unique, the stored ids stay unique. *)
Lemma merges_unique_ids st calls :
  Forall (fun c => unique_ids c.1) calls -> unique_ids (posts st) ->
  unique_ids (posts (merges Date_parse st calls)).
Proof.
  unfold merges. intros Hc. revert st.
  induction Hc as [|[batch now] calls Hb _ IH]; intros st Hs; simpl; [done|].
  apply IH. by apply addPosts_unique_ids.
Qed.

Lemma merges_snoc st calls batch now :
  merges Date_parse st (calls ++ [(batch, now)]) =
  fst (addPosts Date_parse (merges Date_parse st calls) batch now).
Proof. unfold merges. by rewrite foldl_app. Qed.

Lemma merges_ordered_bounded st calls batch now :
  Forall (fun c => Forall valid c.1) (calls ++ [(batch, now)]) ->
  Forall valid (posts st) ->
  let st' := merges Date_parse st (calls ++ [(batch, now)]) in
  descending Date_parse (posts st') /\ (length (posts st') <= 20)%nat.
Proof.
  intros Hc Hs. rewrite merges_snoc.
  apply Forall_app in Hc as [Hc Hb]. rewrite Forall_singleton in Hb. simpl in Hb.
  split; [|apply addPosts_length].
  apply addPosts_descending; [exact Hb|]. by apply merges_valid.
Qed.
End StoreFacts.

Section StoreClaims.
Import JS Storage.
Variable Date_parse : jsstring -> Date.

Local Abbreviation valid := (valid_time Date_parse).

(** C2, as amended. When every post of the batch carries an id that is
    already stored, and the stored posts are in descending order of valid
    publish times and at most 20, the merge leaves [posts] as it is and
    returns 0; it sets [lastFetchTime] to the ISO string of the current
    instant and [isFirstTime] to false. *)
Theorem addPosts_all_known st batch now :
  Forall valid (posts st) ->
  descending Date_parse (posts st) ->
  (length (posts st) <= 20)%nat ->
  Forall (fun p => id p ∈ id <$> posts st) batch ->
  addPosts Date_parse st batch now =
  ({| posts := posts st; lastFetchTime := isoString now; isFirstTime := false |}, 0%nat).
Proof.
  intros Hv Hd Hlen Hknown. unfold addPosts.
  rewrite screen_known by done. simpl app. unfold slice0.
  rewrite Array_sort_sorted by (by apply descending_accepted).
  by rewrite firstn_all2.
Qed.

(** C3, as amended. Merging 25 posts whose publish times are valid and
    strictly increasing into the default store retains exactly the last 20
    of them, newest first, every dropped post being older than every
    retained one; [isFirstTime] becomes false, [lastFetchTime] is the ISO
    string of the instant of the merge, and 25 is returned. *)
Theorem addPosts_first_25 batch now :
  length batch = 25%nat ->
  Forall valid batch ->
  increasing Date_parse batch ->
  addPosts Date_parse defaultState batch now =
    ({| posts := rev (drop 5 batch); lastFetchTime := isoString now; isFirstTime := false |},
     25%nat)
  /\ length (rev (drop 5 batch)) = 20%nat
  /\ (forall p q, p ∈ take 5 batch -> q ∈ drop 5 batch ->
        instant Date_parse p < instant Date_parse q).
Proof.
  intros Hlen Hv Hinc. split; [|split].
  - unfold addPosts. change (posts defaultState) with (@nil TwitterPost).
    rewrite screen_empty_store, app_nil_r, Hlen by done. unfold slice0.
    rewrite (Array_sort_increasing _ (instant Date_parse)); [|by apply by_key_desc_valid|done].
    by rewrite firstn_rev, Hlen.
  - rewrite length_rev, length_drop. lia.
  - intros p q Hp Hq. unfold increasing in Hinc.
    rewrite <- (take_drop 5 batch) in Hinc.
    by apply (StronglySorted_app_1_elem_of _ _ _ p q) in Hinc.
Qed.
End StoreClaims.

Section StoreRuns.
Import JS Storage.

(** The two sample tweets are extracted with one and the same id: the id
    is cut from the encoding of the first twelve bytes of the author and
    content, and the author's name alone is longer than that. *)
Lemma reports_share_an_id :
  id <$> Samples.reports = [lit "RGFpbHkgV2VhdGhl"; lit "RGFpbHkgV2VhdGhl"]
  /\ content <$> Samples.reports = [lit "Sunny today"; lit "Rain tomorrow"].
Proof. split; by vm_compute. Qed.

(** C1 (failing input). Merging the two sample tweets, which carry the same
    id, into the default store leaves both in [posts]: the stored ids are
    not unique. *)
Theorem addPosts_stores_one_id_twice :
  let st := fst (addPosts parseISO defaultState Samples.reports 1698400000000) in
  id <$> posts st = [lit "RGFpbHkgV2VhdGhl"; lit "RGFpbHkgV2VhdGhl"]
  /\ ~ unique_ids (posts st).
Proof.
  assert (E : id <$> posts (fst (addPosts parseISO defaultState Samples.reports 1698400000000))
              = [lit "RGFpbHkgV2VhdGhl"; lit "RGFpbHkgV2VhdGhl"]) by (by vm_compute).
  split; [exact E|]. unfold unique_ids. rewrite E.
  intros H. apply NoDup_cons in H as [H _]. apply H. left.
Qed.

(** C4 (failing input). The same batch holds a single distinct id, unknown
    to the default store, and the merge returns 2. *)
Theorem addPosts_counts_one_id_twice :
  size (list_to_set (id <$> Samples.reports) : gset jsstring) = 1%nat
  /\ snd (addPosts parseISO defaultState Samples.reports 1698400000000) = 2%nat.
Proof. split; by vm_compute. Qed.

(** C2 (counterexample). The store holds one post, fetched at
    2023-10-27T09:46:40Z; merging that very post again ten seconds later
    changes [lastFetchTime]. *)
Lemma addPosts_all_known_moves_lastFetchTime :
  let st := Samples.store1 in
  Forall (fun p => id p ∈ id <$> posts st) (posts st)
  /\ lastFetchTime st = lit "2023-10-27T09:46:40.000Z"
  /\ lastFetchTime (fst (addPosts parseISO st (posts st) 1698400010000))
     = lit "2023-10-27T09:46:50.000Z"
  /\ lastFetchTime (fst (addPosts parseISO st (posts st) 1698400010000)) <> lastFetchTime st.
Proof.
  split; [|split; [|split]]; [| by vm_compute | by vm_compute | by vm_compute].
  apply Forall_forall. intros p Hp. apply list_elem_of_fmap. eauto.
Qed.

Lemma addPosts_all_known_witness :
  addPosts parseISO Samples.store1 (posts Samples.store1) 1698400010000 =
  ({| posts := posts Samples.store1; lastFetchTime := isoString 1698400010000;
      isFirstTime := false |}, 0%nat).
Proof.
  apply (addPosts_all_known parseISO Samples.store1 (posts Samples.store1) 1698400010000).
  - unfold valid_time. by_evaluation.
  - unfold descending. by_evaluation.
  - vm_compute. lia.
  - apply Forall_forall. intros p Hp. apply list_elem_of_fmap. eauto.
Defined.

(** C3 (counterexample). 25 posts one second apart, the newest published at
    05:23:42Z, are merged into the default store at 09:46:40Z:
    [lastFetchTime] is the instant of the merge, not that of the newest
    retained post. *)
Lemma addPosts_first_25_lastFetchTime :
  let st := fst (addPosts parseISO defaultState Samples.batch25 1698400000000) in
  length Samples.batch25 = 25%nat
  /\ unique_ids Samples.batch25
  /\ increasing parseISO Samples.batch25
  /\ publishTime <$> head (posts st) = Some (lit "2023-10-27T05:23:42.000Z")
  /\ lastFetchTime st = lit "2023-10-27T09:46:40.000Z"
  /\ Some (lastFetchTime st) <> publishTime <$> head (posts st)
  /\ parseISO (lastFetchTime st) <> parseISO (lit "2023-10-27T05:23:42.000Z").
Proof.
  split; [by vm_compute|].
  split; [unfold unique_ids; by_evaluation|].
  split; [unfold increasing; by_evaluation|].
  split; [by vm_compute|].
  split; [by vm_compute|].
  split; by vm_compute.
Qed.

Lemma addPosts_first_25_witness :
  addPosts parseISO defaultState Samples.batch25 1698400000000 =
    ({| posts := rev (drop 5 Samples.batch25); lastFetchTime := isoString 1698400000000;
        isFirstTime := false |}, 25%nat)
  /\ length (rev (drop 5 Samples.batch25)) = 20%nat
  /\ (forall p q, p ∈ take 5 Samples.batch25 -> q ∈ drop 5 Samples.batch25 ->
        instant parseISO p < instant parseISO q).
Proof.
  apply (addPosts_first_25 parseISO Samples.batch25 1698400000000).
  - by vm_compute.
  - unfold valid_time. by_evaluation.
  - unfold increasing. by_evaluation.
Defined.
End StoreRuns.

(** ** The scroll collector *)

Section CollectorFacts.
Import JS Scraper.
Variable views : nat -> list RawTweet.

Local Abbreviation N := (count views).

Lemma visit_fold l collected ids found :
  let '(collected', _, found') := foldl visit (collected, ids, found) l in
  (length collected <= length collected')%nat
  /\ (found' = true <-> found = true \/ (length collected < length collected')%nat).
Proof.
  revert collected ids found. induction l as [|t l IH]; intros collected ids found.
  - simpl. split; [lia|]. split; [tauto|]. intros [H|H]; [done|lia].
  - change (foldl visit (collected, ids, found) (t :: l))
      with (foldl visit (visit (collected, ids, found) t) l).
    remember (visit (collected, ids, found) t) as st eqn:E.
    unfold visit in E. destruct (decide _); subst st.
    + apply IH.
    + specialize (IH (collected ++ [t]) ({[uniqueKey t]} ∪ ids) true).
      destruct (foldl visit _ l) as [[c' i'] f']. rewrite length_app in IH. simpl in IH.
      destruct IH as [IH1 IH2]. split; [lia|]. split; [right; lia|]. intros _.
      apply IH2. by left.
Qed.

Lemma attempts_after k : scrollAttempts (after views k) = k.
Proof.
  induction k as [|k IH]; [done|]. simpl. unfold scroll_step.
  destruct (foldl visit _ _) as [[c i] f]. simpl. by rewrite IH.
Qed.

Lemma scroll_step_after k :
  scroll_step (views k) (after views k) = (after views (S k), negb (N (S k) =? N k)%nat).
Proof.
  unfold count. simpl. unfold scroll_step.
  pose proof (visit_fold (views k) (collectedTweets (after views k))
                (collectedTweetUniqueIdentifiers (after views k)) false) as H.
  destruct (foldl visit _ _) as [[c i] f]. simpl. f_equal.
  destruct H as [H1 H2]. destruct (Nat.eqb_spec (length c) (length (collectedTweets (after views k)))).
  - destruct f; [|done]. destruct H2 as [H2 _]. destruct (H2 eq_refl); [done|lia].
  - simpl. apply H2. right. lia.
Qed.

Lemma count_mono k : (N k <= N (S k))%nat.
Proof.
  unfold count. simpl. unfold scroll_step.
  pose proof (visit_fold (views k) (collectedTweets (after views k))
                (collectedTweetUniqueIdentifiers (after views k)) false) as H.
  destruct (foldl visit _ _) as [[c i] f]. simpl. tauto.
Qed.

Lemma collect_eq fuel c :
  collect (S fuel) views c =
    if (length (collectedTweets c) <? minTweetsToCollect)%nat
       && (scrollAttempts c <? maxScrollAttempts)%nat
    then
      let '(c', foundNewTweetsInThisScroll) := scroll_step (views (scrollAttempts c)) c in
      if (minTweetsToCollect <=? length (collectedTweets c'))%nat
         && (0 <? scrollAttempts c')%nat
      then Some (c', TargetReached)
      else if negb foundNewTweetsInThisScroll && (1 <? scrollAttempts c')%nat
      then Some (c', NoNewContent)
      else collect fuel views c'
    else
      Some (c, if (length (collectedTweets c) <? minTweetsToCollect)%nat
               then MaxAttemptsReached else TargetReached).
Proof. reflexivity. Qed.

(** One turn of the loop from the state after [k] steps. *)
Lemma collect_turn fuel k :
  (k < 10)%nat -> (N k < 20)%nat ->
  collect (S fuel) views (after views k) =
    if (20 <=? N (S k))%nat then Some (after views (S k), TargetReached)
    else if (N (S k) =? N k)%nat && (1 <=? k)%nat then Some (after views (S k), NoNewContent)
    else collect fuel views (after views (S k)).
Proof.
  intros Hk HN. rewrite collect_eq, attempts_after.
  unfold minTweetsToCollect, maxScrollAttempts.
  fold (N k).
  destruct (Nat.ltb_spec (N k) 20); [|lia].
  destruct (Nat.ltb_spec k 10); [|lia]. simpl andb.
  rewrite scroll_step_after, attempts_after. fold (N (S k)).
  replace (0 <? S k)%nat with true by (symmetry; by apply Nat.ltb_lt; lia).
  replace (1 <? S k)%nat with (1 <=? k)%nat
    by (destruct (Nat.leb_spec 1 k), (Nat.ltb_spec 1 (S k)); (done || lia)).
  rewrite negb_involutive, andb_true_r. done.
Qed.

Lemma collect_exhausted fuel :
  (N 10 < 20)%nat ->
  collect (S fuel) views (after views 10) = Some (after views 10, MaxAttemptsReached).
Proof.
  intros HN. rewrite collect_eq, attempts_after. fold (N 10).
  unfold minTweetsToCollect, maxScrollAttempts.
  destruct (Nat.ltb_spec (N 10) 20); [|lia]. done.
Qed.

(** The loop goes on through [k] steps when none of them reaches the
    target and each one after the first brings something new. *)
Lemma collect_through fuel k :
  (k <= 10)%nat ->
  (forall j, (j <= k)%nat -> (N j < 20)%nat) ->
  (forall j, (2 <= j <= k)%nat -> (N (j - 1) < N j)%nat) ->
  collect (k + fuel) views start = collect fuel views (after views k).
Proof.
  revert fuel. induction k as [|k IH]; intros fuel Hk HN HF; [done|].
  replace (S k + fuel)%nat with (k + S fuel)%nat by lia.
  rewrite IH; [|lia|intros; apply HN; lia|intros; apply HF; lia].
  rewrite collect_turn; [|lia|apply HN; lia].
  pose proof (HN (S k) ltac:(lia)).
  destruct (Nat.leb_spec 20 (N (S k))); [lia|].
  destruct (Nat.eqb_spec (N (S k)) (N k)) as [E|]; [|done].
  destruct k; [done|]. specialize (HF (S (S k)) ltac:(lia)).
  replace (S (S k) - 1)%nat with (S k) in HF by lia. lia.
Qed.

(** From the state after [j] steps the loop ends with some later step [k],
    having gone on after every step in between. *)
Lemma collect_stops d : forall j fuel,
  (10 - j = S d)%nat -> (N j < 20)%nat -> (S d < fuel)%nat ->
  exists k, (j < k <= 10)%nat
    /\ collect fuel views (after views j) = Some (after views k, reason_at views k)
    /\ (forall i, (j < i < k)%nat -> (N i < 20)%nat /\ ((2 <= i)%nat -> (N (i - 1) < N i)%nat))
    /\ (reason_at views k = MaxAttemptsReached -> k = 10%nat).
Proof.
  induction d as [|d IH]; intros j fuel Hd HN Hfuel;
    (destruct fuel as [|fuel]; [lia|]);
    rewrite collect_turn by lia;
    pose proof (count_mono j) as Hmono; unfold reason_at, minTweetsToCollect.
  - assert (j = 9%nat) as -> by lia. exists 10%nat. change (10 - 1)%nat with 9%nat.
    destruct (Nat.leb_spec 20 (N 10)); [repeat split; (done || lia)|].
    destruct (Nat.eqb_spec (N 10) (N 9)); simpl.
    + repeat split; (done || lia).
    + destruct fuel as [|fuel]; [lia|]. rewrite collect_exhausted by lia.
      repeat split; (done || lia).
  - destruct (20 <=? N (S j))%nat eqn:Et.
    { exists (S j). rewrite Et. repeat split; (done || lia). }
    apply Nat.leb_gt in Et as Ht.
    destruct (N (S j) =? N j)%nat eqn:Ee; cbn [andb];
      [destruct (1 <=? j)%nat eqn:Ej|].
    { exists (S j). apply Nat.leb_le in Ej. rewrite Et.
      replace (S j - 1)%nat with j by lia. rewrite Ee.
      replace (2 <=? S j)%nat with true by (symmetry; apply Nat.leb_le; lia).
      repeat split; (done || lia). }
    all: destruct (IH (S j) fuel ltac:(lia) ltac:(lia) ltac:(lia)) as (k & Hk & Hrun & Hon & Hmax);
      exists k; rewrite Hrun;
      (split; [lia|]); (split; [done|]); (split; [|done]);
      intros i Hi; destruct (decide (i = S j)) as [->|];
        [|apply Hon; lia];
      (split; [lia|]); intros ?; replace (S j - 1)%nat with j by lia.
    + apply Nat.leb_gt in Ej. lia.
    + apply Nat.eqb_neq in Ee. lia.
Qed.
End CollectorFacts.

(** ** The scroll collector: what it accumulates *)

Section CollectorContents.
Import JS Scraper.

Local Abbreviation keys l := (uniqueKey <$> l).

(** Two sets of keys are equal when they have the same members. *)
Ltac by_members :=
  apply set_eq; intros ?;
  rewrite ?fmap_app, ?fmap_cons, ?list_to_set_app, ?list_to_set_cons, ?elem_of_union,
    ?elem_of_union, ?elem_of_empty;
  simpl; rewrite ?elem_of_union, ?elem_of_empty; tauto.

Lemma visit_fold_first l : forall collected ids found,
  foldl visit (collected, ids, found) l =
  (collected ++ first_by_key ids l,
   list_to_set (keys (first_by_key ids l)) ∪ ids,
   found || bool_decide (first_by_key ids l <> [])).
Proof.
  induction l as [|t l IH]; intros collected ids found.
  - simpl. rewrite app_nil_r, orb_false_r. f_equal. f_equal. by_members.
  - change (foldl visit (collected, ids, found) (t :: l))
      with (foldl visit (visit (collected, ids, found) t) l).
    unfold visit. simpl first_by_key. destruct (decide (uniqueKey t ∈ ids)).
    + apply IH.
    + rewrite IH, <- app_assoc. simpl. rewrite orb_true_r. f_equal. f_equal. by_members.
Qed.

Lemma first_by_key_app seen l1 l2 :
  first_by_key seen (l1 ++ l2) =
  first_by_key seen l1 ++ first_by_key (list_to_set (keys (first_by_key seen l1)) ∪ seen) l2.
Proof.
  revert seen. induction l1 as [|t l1 IH]; intros seen; simpl.
  - f_equal. by_members.
  - destruct (decide _); [apply IH|]. simpl. rewrite IH. do 2 f_equal.
    match goal with
    | |- first_by_key ?a _ = first_by_key ?b _ => replace a with b by by_members
    end. done.
Qed.

Lemma first_by_key_fresh seen l : forall t, t ∈ first_by_key seen l -> uniqueKey t ∉ seen.
Proof.
  revert seen. induction l as [|x l IH]; intros seen t; simpl; [by intros ?%elem_of_nil|].
  destruct (decide _).
  - apply IH.
  - intros [->|Ht]%elem_of_cons; [done|]. apply IH in Ht.
    intros H. apply Ht. by apply elem_of_union_r.
Qed.

Lemma first_by_key_NoDup seen l : NoDup (keys (first_by_key seen l)).
Proof.
  revert seen. induction l as [|x l IH]; intros seen; simpl; [constructor|].
  destruct (decide _); [apply IH|]. rewrite fmap_cons. constructor; [|apply IH].
  intros (t & Hk & Ht)%list_elem_of_fmap. apply first_by_key_fresh in Ht.
  rewrite <- Hk in Ht. apply Ht, elem_of_union_l. by apply elem_of_singleton.
Qed.




Lemma after_first views k :
  collectedTweets (after views k) = first_by_key ∅ (met views k)
  /\ collectedTweetUniqueIdentifiers (after views k)
     = list_to_set (keys (collectedTweets (after views k))).
Proof.
  induction k as [|k [IHc IHi]]; [done|].
  simpl after. unfold scroll_step. rewrite visit_fold_first. cbn [fst collectedTweets
    collectedTweetUniqueIdentifiers].
  rewrite IHi, IHc. unfold met. rewrite seq_S, fmap_app, join_app. simpl.
  rewrite app_nil_r, first_by_key_app. split.
  - do 2 f_equal. by_members.
  - by_members.
Qed.


Lemma run_ends views :
  exists k, (1 <= k <= 10)%nat
    /\ scrapeTweetsWithScrolling views = Some (after views k, reason_at views k).
Proof.
  destruct (collect_stops views 9 0 (S maxScrollAttempts)) as (k & Hk & Hrun & _);
    [done | by (unfold count; simpl; lia) | unfold maxScrollAttempts; lia |].
  exists k. split; [lia | exact Hrun].
Qed.

(** X11. Every run of the collector ends, after 1 to 10 passes, with the
    tweets met during these passes in the order met, each key kept once at
    its first occurrence: the list is what a single pass over all the
    views, one after the other, would keep. *)
Theorem collected_first_seen views :
  exists c r,
    scrapeTweetsWithScrolling views = Some (c, r)
    /\ (1 <= scrollAttempts c <= 10)%nat
    /\ collectedTweets c = first_by_key ∅ (met views (scrollAttempts c)).
Proof.
  destruct (run_ends views) as (k & Hk & Hrun).
  exists (after views k), (reason_at views k).
  rewrite attempts_after. split; [done|]. split; [done|]. apply after_first.
Qed.

(** X12. No two tweets that a run of the collector returns have the same
    key (author and raw datetime), and the set of identifiers holds the
    keys of the returned tweets and nothing else. *)
Theorem collected_keys_unique views c r :
  scrapeTweetsWithScrolling views = Some (c, r) ->
  NoDup (uniqueKey <$> collectedTweets c)
  /\ (forall key, key ∈ collectedTweetUniqueIdentifiers c
                  <-> key ∈ uniqueKey <$> collectedTweets c).
Proof.
  destruct (run_ends views) as (k & Hk & Hrun). rewrite Hrun. intros [= <- _].
  destruct (after_first views k) as [Hc Hi]. split.
  - rewrite Hc. apply first_by_key_NoDup.
  - intros key. rewrite Hi. by rewrite elem_of_list_to_set.
Qed.
End CollectorContents.

Section CollectorClaims.
Import JS Scraper.





(** The three ways out on concrete feeds. *)
Example steady_feed : outcome Samples.steady = Some (21%nat, 7%nat, TargetReached).
Proof. by vm_compute. Qed.

Example stalled_feed : outcome Samples.stalled = Some (2%nat, 2%nat, NoNewContent).
Proof. by vm_compute. Qed.

Example trickle_feed : outcome Samples.trickle = Some (10%nat, 10%nat, MaxAttemptsReached).
Proof. by vm_compute. Qed.

Example dry_feed : outcome Samples.dry = Some (9%nat, 10%nat, NoNewContent).
Proof. by vm_compute. Qed.

End CollectorClaims.

Section CollectorContentsRuns.
Import JS Scraper.

Lemma steady_run_ends :
  scrapeTweetsWithScrolling Samples.steady = Some (Samples.steady_run, TargetReached).
Proof.
  pose proof steady_feed as H. unfold outcome in H. unfold Samples.steady_run.
  destruct (scrapeTweetsWithScrolling Samples.steady) as [[c r]|]; [|done].
  injection H as _ _ ->. reflexivity.
Qed.

Lemma collected_keys_unique_witness :
  NoDup (uniqueKey <$> collectedTweets Samples.steady_run)
  /\ (forall key, key ∈ collectedTweetUniqueIdentifiers Samples.steady_run
                  <-> key ∈ uniqueKey <$> collectedTweets Samples.steady_run).
Proof.
  apply (collected_keys_unique Samples.steady Samples.steady_run TargetReached).
  exact steady_run_ends.
Defined.
End CollectorContentsRuns.

(** ** The background script *)

Section BackgroundFacts.
Import JS Background.

Ltac run_handler :=
  cbv [run handle intervalCallback reloadCallback onUpdated reloadedSendCallback
       fetchSendCallback tabReadyCallback queryCallback on_FETCH_TWEETS_REQUEST
       on_SCRAPE_COMPLETE_RESPONSE on_SCRAPE_ERROR_RESPONSE
       sendScrapeRequestToTabAndUpdateState startPeriodicRefresh stopPeriodicRefresh
       host_clearInterval host_setInterval set_refreshIntervalId set_twitterTabId
       set_isReloadingForScrape set_reloadingTabId
       mbind mret M_bind M_ret bind ret get modify emit
       refreshIntervalId twitterTabId isReloadingForScrape reloadingTabId
       liveIntervals nextHandle fst snd app].

(** Stopping the refresh of a tracked timer leaves no interval live. *)
Lemma stopPeriodicRefresh_tracked s :
  timer_tracked s ->
  let '(_, s', acts) := stopPeriodicRefresh s in
  refreshIntervalId s' = None /\ liveIntervals s' = []
  /\ twitterTabId s' = twitterTabId s
  /\ isReloadingForScrape s' = isReloadingForScrape s
  /\ reloadingTabId s' = reloadingTabId s
  /\ nextHandle s' = nextHandle s
  /\ acts = match refreshIntervalId s with Some h => [clearInterval h] | None => [] end.
Proof.
  destruct s as [rid tab rel rtab live next]. unfold timer_tracked. simpl.
  intros ->. destruct rid as [h|]; run_handler; [|done].
  rewrite filter_cons, decide_False by (intros H; by apply H). done.
Qed.

Lemma forget_own_handle (h : nat) : filter (fun k => k <> h) [h] = [].
Proof. rewrite filter_cons, decide_False by (intros H; by apply H). done. Qed.

(** Every handler keeps the script's handle and the host's live intervals
    in step, and an interval is only live while a tab is tracked. *)
Lemma handle_in_step e s : in_step s -> in_step (fst (run e s)).
Proof.
  destruct s as [rid tab rel rtab live next]. unfold in_step, timer_tracked. simpl.
  intros [-> Htab].
  assert (Hrid : tab = None -> rid = None) by exact Htab. clear Htab.
  destruct tab as [tab|]; [|rewrite (Hrid eq_refl)]; clear Hrid;
    destruct rid as [rid|], e;
    repeat first
      [ rewrite forget_own_handle
      | progress run_handler
      | match goal with
        | |- context [if ?b then _ else _] => destruct b eqn:?
        | |- context [match ?x with Some _ => _ | None => _ end] => destruct x eqn:?
        | |- context [match ?x with [] => _ | _ :: _ => _ end] => destruct x eqn:?
        end ];
    simplify_eq; try (split; done).
Qed.

Lemma reachable_in_step s : reachable s -> in_step s.
Proof.
  induction 1 as [|s e _ IH _]; [by split|]. by apply handle_in_step.
Qed.
End BackgroundFacts.

Section BackgroundClaims.
Import JS Background.

(** C9. In a state where no tab is tracked and the script's handle names
    the interval that is live, the firing of that interval clears it and
    forgets the handle: no interval is live afterwards, the only call made
    into the host is that [clearInterval], so neither a tab reload nor a
    scrape request is issued, and the other variables are left alone. *)
Theorem timer_fire_without_tab s h :
  twitterTabId s = None ->
  timer_tracked s ->
  enabled (TimerFired h) s ->
  let (s', acts) := run (TimerFired h) s in
  acts = [clearInterval h]
  /\ liveIntervals s' = [] /\ refreshIntervalId s' = None
  /\ existsb is_reload acts = false /\ existsb is_scrape_request acts = false
  /\ twitterTabId s' = None
  /\ isReloadingForScrape s' = isReloadingForScrape s
  /\ reloadingTabId s' = reloadingTabId s
  /\ nextHandle s' = nextHandle s.
Proof.
  intros Htab Htr Hen. unfold run, handle, intervalCallback.
  pose proof (stopPeriodicRefresh_tracked s Htr) as Hstop.
  unfold mbind, M_bind, bind, get. rewrite Htab.
  destruct (stopPeriodicRefresh s) as [[[] s'] acts].
  destruct Hstop as (Hrid & Hlive & Htab' & Hrel & Hrtab & Hnext & Hacts).
  unfold timer_tracked in Htr. simpl in Hen. rewrite Htr in Hen.
  destruct (refreshIntervalId s) as [h'|]; [|by apply elem_of_nil in Hen].
  apply list_elem_of_singleton in Hen as ->. subst acts.
  rewrite Htab' , Htab. by repeat split.
Qed.

Lemma timer_fire_without_tab_witness :
  run (TimerFired 3)
    {| refreshIntervalId := Some 3%nat; twitterTabId := None; isReloadingForScrape := false;
       reloadingTabId := None; liveIntervals := [3%nat]; nextHandle := 4 |}
  = ({| refreshIntervalId := None; twitterTabId := None; isReloadingForScrape := false;
        reloadingTabId := None; liveIntervals := []; nextHandle := 4 |},
     [clearInterval 3]).
Proof.
  pose proof (timer_fire_without_tab
    {| refreshIntervalId := Some 3%nat; twitterTabId := None; isReloadingForScrape := false;
       reloadingTabId := None; liveIntervals := [3%nat]; nextHandle := 4 |} 3%nat
    eq_refl eq_refl (list_elem_of_here _ _)) as H.
  destruct (run _ _) as [s' acts]. destruct s'. simpl in H.
  destruct H as (-> & -> & -> & _ & _ & -> & -> & -> & ->).
  reflexivity.
Defined.
End BackgroundClaims.

(** ** Text encodings *)

Section EncodingFacts.
Import JS.

Local Ltac by_cases :=
  repeat match goal with
         | |- context [?a <? ?b] => destruct (Z.ltb_spec a b)
         | |- context [?a <=? ?b] => destruct (Z.leb_spec a b)
         | |- context [?a =? ?b] => destruct (Z.eqb_spec a b)
         | H : context [?a <? ?b] |- _ => destruct (Z.ltb_spec a b)
         | H : context [?a <=? ?b] |- _ => destruct (Z.leb_spec a b)
         end; simpl in *.

Lemma code_points_scalar s : wf_string s -> Forall scalar (code_points s).
Proof.
  assert (H : forall s, wf_string s ->
             Forall scalar (code_points s)
             /\ forall c, code_unit c -> Forall scalar (code_points (c :: s))).
  { clear s. induction s as [|d s IH]; intros Hwf.
    - split; [constructor|]. intros c Hc. cbn -[Z.mul].
      unfold is_high_surrogate, is_low_surrogate, scalar, code_unit in *.
      by_cases; try lia; repeat first [apply Forall_nil_2 | apply Forall_cons_2];
        intros cp [= <-]; lia.
    - apply Forall_cons in Hwf as [Hd Hwf]. destruct (IH Hwf) as [IH1 IH2].
      split; [by apply IH2|]. intros c Hc.
      change (code_points (c :: d :: s)) with
        (if is_high_surrogate c then
           if is_low_surrogate d
           then Some (0x10000 + (c - 0xD800) * 1024 + (d - 0xDC00)) :: code_points s
           else None :: code_points (d :: s)
         else if is_low_surrogate c then None :: code_points (d :: s)
         else Some c :: code_points (d :: s)).
      specialize (IH2 d Hd).
      unfold is_high_surrogate, is_low_surrogate, scalar, code_unit in *.
      by_cases; try lia; apply Forall_cons_2; try done; intros cp [= <-]; lia. }
  intros Hwf. by apply H.
Qed.

Lemma utf8_of_code_point_bytes cp :
  0 <= cp <= 0x10FFFF -> Forall byte (utf8_of_code_point cp).
Proof.
  intros Hcp. unfold utf8_of_code_point, byte.
  by_cases; repeat first [apply Forall_nil_2 | apply Forall_cons_2];
    Z.div_mod_to_equations; lia.
Qed.

Lemma utf8_of_code_point_head cp :
  0 <= cp <= 0x10FFFF ->
  exists b rest, utf8_of_code_point cp = b :: rest /\ 0 <= b < 248.
Proof.
  intros Hcp. unfold utf8_of_code_point.
  by_cases; eexists _, _; (split; [reflexivity|Z.div_mod_to_equations; lia]).
Qed.

Lemma scalar_default o : scalar o -> 0 <= default 0xFFFD o <= 0x10FFFF.
Proof. destruct o as [cp|]; simpl; [intros H; by apply H | lia]. Qed.

Lemma TextEncoder_encode_bytes s : wf_string s -> Forall byte (TextEncoder_encode s).
Proof.
  intros Hwf. apply code_points_scalar in Hwf. unfold TextEncoder_encode.
  induction Hwf as [|o l Ho _ IH]; simpl; [constructor|].
  apply Forall_app. split; [|done]. by apply utf8_of_code_point_bytes, scalar_default.
Qed.

Lemma code_points_nonempty s : s <> [] -> code_points s <> [].
Proof.
  destruct s as [|c [|d s]]; [done| |]; intros _; simpl;
    repeat (match goal with |- context [if ?b then _ else _] => destruct b end); done.
Qed.

(** The first byte of the UTF-8 encoding of a non-empty string is below
    0xF8: its six leading bits are not all ones. *)
Lemma TextEncoder_encode_head s :
  wf_string s -> s <> [] ->
  exists b rest, TextEncoder_encode s = b :: rest /\ 0 <= b < 248.
Proof.
  intros Hwf Hne. apply code_points_scalar in Hwf. apply code_points_nonempty in Hne.
  unfold TextEncoder_encode. destruct Hwf as [|o l Ho _]; [done|]. simpl.
  destruct (utf8_of_code_point_head (default 0xFFFD o)) as (b & rest & -> & Hb).
  { by apply scalar_default. }
  by exists b, (rest ++ flat_map (fun cp => utf8_of_code_point (default 65533 cp)) l).
Qed.

Lemma b64_char_alnum i : 0 <= i <= 61 -> is_alnum (b64_char i) = true.
Proof.
  intros Hi. unfold b64_char, is_alnum, is_lower, is_upper, is_digit.
  by_cases; (done || lia).
Qed.

Lemma base64_head b rest :
  0 <= b < 248 -> exists c rest', base64 (b :: rest) = c :: rest' /\ is_alnum c = true.
Proof.
  intros Hb. assert (is_alnum (b64_char (b / 4)) = true)
    by (apply b64_char_alnum; Z.div_mod_to_equations; lia).
  destruct rest as [|b1 [|b2 rest]]; simpl; eauto.
Qed.

Lemma btoa_bytes bs : Forall byte bs -> btoa (String_fromCharCode bs) = Some (base64 bs).
Proof.
  intros Hbs. unfold btoa.
  assert (E : String_fromCharCode bs = bs).
  { unfold String_fromCharCode. induction Hbs as [|b l Hb _ IH]; simpl; [done|].
    rewrite IH. f_equal. unfold byte in Hb. apply Z.mod_small. lia. }
  rewrite E. replace (forallb _ bs) with true; [done|].
  symmetry. apply forallb_forall. intros b Hb. rewrite Forall_forall in Hbs.
  apply list_elem_of_In, Hbs in Hb. unfold byte in Hb. by_cases; (done || lia).
Qed.

(** Decimal digits. *)
Lemma uint_units_digits d : Forall (fun c => 48 <= c <= 57) (uint_units d).
Proof. induction d; simpl; first [apply Forall_nil_2 | apply Forall_cons_2]; (lia || done). Qed.

Lemma uint_units_nonempty d : d <> Decimal.Nil -> uint_units d <> [].
Proof. by destruct d. Qed.

Lemma Z_toString_wf z : wf_string (Z_toString z) /\ Z_toString z <> [].
Proof.
  unfold Z_toString, wf_string, code_unit.
  destruct (Z.to_int z) as [d|d] eqn:E.
  - split; [eapply Forall_impl; [apply uint_units_digits|]; simpl; lia|].
    apply uint_units_nonempty.
    destruct z; simpl in E; try discriminate; injection E as <-; [done|].
    apply DecimalPos.Unsigned.to_uint_nonnil.
  - split; [|done]. apply Forall_cons_2; [lia|].
    eapply Forall_impl; [apply uint_units_digits|]. simpl. lia.
Qed.

Lemma Number_toString_wf n : wf_string (Number_toString n) /\ Number_toString n <> [].
Proof.
  destruct n as [z|]; [apply Z_toString_wf|].
  split; [|done]. unfold wf_string, code_unit, Number_toString.
  change (lit "NaN") with [78; 97; 78].
  repeat first [apply Forall_nil_2 | apply Forall_cons_2]; lia.
Qed.
End EncodingFacts.

(** ** Tweet ids *)

Section IdFacts.
Import JS Content.

Lemma truncate_id_length b : (length (truncate_id b) <= 16)%nat.
Proof. unfold truncate_id, substring. rewrite length_take. lia. Qed.

Lemma truncate_id_alnum b : Forall alnum (truncate_id b).
Proof.
  unfold truncate_id, substring, strip_non_alnum. apply Forall_take. simpl.
  apply Forall_forall. intros c Hc. by apply list_elem_of_filter in Hc as [Hc _].
Qed.

Lemma truncate_id_nonempty c rest : is_alnum c = true -> truncate_id (c :: rest) <> [].
Proof.
  intros Hc. unfold truncate_id, substring, strip_non_alnum.
  rewrite filter_cons, decide_True by done. done.
Qed.

Local Ltac by_cases :=
  repeat match goal with
         | |- context [?a <? ?b] => destruct (Z.ltb_spec a b)
         | |- context [?a <=? ?b] => destruct (Z.leb_spec a b)
         | |- context [?a =? ?b] => destruct (Z.eqb_spec a b)
         | H : context [?a <? ?b] |- _ => destruct (Z.ltb_spec a b)
         | H : context [?a <=? ?b] |- _ => destruct (Z.leb_spec a b)
         end; simpl in *.

(** *** The handler's encoding: escaping, then unescaping, gives the UTF-8 bytes *)

Lemma String_fromCharCode_bytes bs : Forall byte bs -> String_fromCharCode bs = bs.
Proof.
  unfold String_fromCharCode. induction 1 as [|b l Hb _ IH]; simpl; [done|].
  rewrite IH. f_equal. unfold byte in Hb. apply Z.mod_small. lia.
Qed.

Lemma hex_value_digit v :
  0 <= v < 16 -> hex_value (hex_digit v) = Some v /\ hex_digit v <> 117.
Proof.
  intros Hv. unfold hex_value, hex_digit, is_digit. by_cases; try lia; split; try lia;
    f_equal; lia.
Qed.

Lemma unescape_percent b rest :
  byte b -> unescape_from 0 (percent_byte b ++ rest) = b :: unescape_from 0 rest.
Proof.
  unfold byte. intros Hb.
  destruct (hex_value_digit (b / 16)) as [E1 N1]; [Z.div_mod_to_equations; lia|].
  destruct (hex_value_digit (b mod 16)) as [E2 _]; [Z.div_mod_to_equations; lia|].
  unfold percent_byte. cbn [app unescape_from]. rewrite Z.eqb_refl.
  destruct (Z.eqb_spec (hex_digit (b / 16)) 117); [done|].
  unfold hex_run. cbn [firstn length Nat.eqb foldl]. rewrite E1, E2.
  f_equal. Z.div_mod_to_equations. lia.
Qed.

Lemma unescape_bytes bs rest :
  Forall byte bs ->
  unescape_from 0 (flat_map percent_byte bs ++ rest) = bs ++ unescape_from 0 rest.
Proof.
  induction 1 as [|b bs Hb _ IH]; [done|].
  cbn [flat_map]. rewrite <- app_assoc, unescape_percent by done. by rewrite IH.
Qed.

Lemma uri_unreserved_ascii c : uri_unreserved c = true -> 0 <= c < 128 /\ c <> 37.
Proof.
  unfold uri_unreserved, is_alnum, is_lower, is_upper, is_digit. cbn [existsb].
  intros H. by_cases; try lia; done.
Qed.

Lemma unescape_code_point cp rest :
  0 <= cp <= 0x10FFFF ->
  unescape_from 0 (encode_code_point cp ++ rest) = utf8_of_code_point cp ++ unescape_from 0 rest.
Proof.
  intros Hcp. unfold encode_code_point. destruct (uri_unreserved cp) eqn:E.
  - apply uri_unreserved_ascii in E as [Hc Hn]. unfold utf8_of_code_point.
    destruct (Z.ltb_spec cp 0x80); [|lia]. cbn [app unescape_from].
    destruct (Z.eqb_spec cp 37); [done|]. done.
  - apply unescape_bytes. by apply utf8_of_code_point_bytes.
Qed.

Lemma encodeURIComponent_points_Some cps e :
  Forall scalar cps -> encodeURIComponent_points cps = Some e ->
  Forall is_Some cps
  /\ unescape e = flat_map (fun cp => utf8_of_code_point (default 0xFFFD cp)) cps.
Proof.
  intros Hs. revert e. induction Hs as [|o cps Ho _ IH]; intros e; simpl.
  - intros [= <-]. split; [constructor | done].
  - destruct o as [cp|]; [|done].
    destruct (encodeURIComponent_points cps) as [e'|]; [|done]. intros [= <-].
    destruct (IH e' eq_refl) as [Hall He]. split; [by constructor|].
    unfold unescape in *. rewrite unescape_code_point by (by apply Ho). by rewrite He.
Qed.

Lemma encodeURIComponent_points_None cps :
  encodeURIComponent_points cps = None -> ~ Forall is_Some cps.
Proof.
  induction cps as [|o cps IH]; simpl; [done|].
  destruct o as [cp|].
  - destruct (encodeURIComponent_points cps); [done|]. intros _ H.
    apply Forall_cons in H as [_ H]. by apply IH.
  - intros _ H. apply Forall_cons in H as [[? ?] _]. done.
Qed.

Lemma encodable_cases s r : encodable s r \/ ~ encodable s r.
Proof.
  assert (Hd : Decision (encodable s r)).
  { unfold encodable, fits, well_formed. apply _. }
  destruct Hd; [by left | by right].
Qed.

(** The id computation: it raises exactly when the bytes are too many for
    one call and the text has a lone surrogate; otherwise the id is the
    truncated encoding of the UTF-8 bytes, whichever of the two paths
    makes it, and never the fallback id, the encoding being never empty:
    the first UTF-8 byte is below 0xF8, so the first base64 character is
    alphanumeric. *)
Lemma generateId_encodes author content publishTime r :
  wf_string author -> wf_string content ->
  let idSource := author ++ content ++ Number_toString (getTime publishTime) in
  let id := truncate_id (base64 (TextEncoder_encode idSource)) in
  id <> []
  /\ (encodable idSource r -> generateId author content publishTime r = Some id)
  /\ (~ encodable idSource r -> generateId author content publishTime r = None).
Proof.
  intros Ha Hc. destruct (Number_toString_wf (getTime publishTime)) as [Hn Hne].
  cbv zeta. unfold generateId.
  set (idSource := author ++ content ++ Number_toString (getTime publishTime)).
  assert (Hwf : wf_string idSource) by (unfold idSource, wf_string; by rewrite !Forall_app).
  assert (Hsrc : idSource <> []).
  { unfold idSource. intros E. apply app_eq_nil in E as [_ E].
    by apply app_eq_nil in E as [_ E]. }
  destruct (TextEncoder_encode_head idSource Hwf Hsrc) as (b & rest & Hbytes & Hb).
  destruct (base64_head b rest Hb) as (c & rest' & H64 & Halnum).
  assert (Hid : truncate_id (base64 (TextEncoder_encode idSource)) <> []).
  { rewrite Hbytes, H64. by apply truncate_id_nonempty. }
  pose proof (TextEncoder_encode_bytes idSource Hwf) as Hbs.
  pose proof (btoa_bytes _ Hbs) as Hbtoa.
  split; [exact Hid|].
  rewrite Hbtoa. rewrite String_fromCharCode_bytes in Hbtoa by done. cbn [option_map].
  unfold encodable, fits, well_formed.
  destruct (Z.leb_spec (Z.of_nat (length (TextEncoder_encode idSource))) (argumentLimit r))
    as [Hfit|Hover].
  - split; [|intros H; exfalso; apply H; by left]. intros _.
    destruct (truncate_id (base64 (TextEncoder_encode idSource))); done.
  - unfold encodeURIComponent.
    destruct (encodeURIComponent_points (code_points idSource)) as [e|] eqn:E.
    + apply encodeURIComponent_points_Some in E as [Hall He];
        [|by apply code_points_scalar].
      fold (TextEncoder_encode idSource) in He. rewrite He, Hbtoa. cbn [option_map].
      split; [|intros H; exfalso; apply H; by right]. intros _.
      destruct (truncate_id (base64 (TextEncoder_encode idSource))); done.
    + apply encodeURIComponent_points_None in E.
      split; [intros [H|H]; [lia | done] | done].
Qed.
End IdFacts.

Section IdClaims.
Import JS Content.
Variable LocalTZA : Z -> Z.
Variable Date_parse : jsstring -> Date.


(** C10. The id of every post that [extractTweets] produces from an element
    is a non-empty string of at most 16 characters, all of them ASCII
    letters or digits; it is the truncated encoding itself, not the
    fallback id that stands in for an empty one. *)
Theorem extracted_id_shape el r post :
  wf_element el ->
  extractTweet LocalTZA Date_parse el r = Some post ->
  Storage.id post <> []
  /\ (length (Storage.id post) <= 16)%nat
  /\ Forall alnum (Storage.id post)
  /\ Storage.id post =
       truncate_id (base64 (TextEncoder_encode
          (Storage.author post ++ Storage.content post
           ++ Number_toString (getTime (publishTimeOf Date_parse (timeElement el) (clock r)))))).
Proof.
  intros [Hu Ht] Hex. unfold extractTweet in Hex.
  set (author := or_else (userName el) (lit "Unknown")) in *.
  set (content := or_else (tweetText el) []) in *.
  set (publishTime := publishTimeOf Date_parse (timeElement el) (clock r)) in *.
  assert (Ha : wf_string author).
  { unfold author, or_else. destruct (userName el) as [[|c s]|]; try by apply Hu.
    all: unfold wf_string, code_unit; by apply (bool_decide_unpack _). }
  assert (Hc : wf_string content).
  { unfold content, or_else. destruct (tweetText el) as [[|c s]|]; try by apply Ht.
    all: constructor. }
  destruct (generateId_encodes author content publishTime r Ha Hc) as (Hne & Hyes & Hno).
  assert (E : generateId author content publishTime r =
              Some (truncate_id (base64 (TextEncoder_encode
                (author ++ content ++ Number_toString (getTime publishTime)))))).
  { destruct (encodable_cases
                (author ++ content ++ Number_toString (getTime publishTime)) r)
      as [He|He]; [by apply Hyes|].
    rewrite (Hno He) in Hex. done. }
  rewrite E in Hex. destruct (toISOString publishTime); [|done].
  injection Hex as <-. simpl.
  split; [exact Hne|]. split; [apply truncate_id_length|]. split; [apply truncate_id_alnum|done].
Qed.
End IdClaims.

Section IdRuns.
Import JS Content.

Example id_of_chinese_text :
  generateId Samples.zhongwen Samples.greeting (Some 1698384197000) Samples.reading
  = Some (lit "5Lit5paH5L2g5aW9").
Proof. by vm_compute. Qed.

Example id_of_lone_surrogate :
  generateId Samples.zhongwen Samples.broken (Some 1698384197000) Samples.reading
  = Some (lit "5Lit5paHY3V0779M").
Proof. by vm_compute. Qed.



Lemma extracted_id_shape_witness :
  Storage.id Samples.post1 <> []
  /\ (length (Storage.id Samples.post1) <= 16)%nat
  /\ Forall alnum (Storage.id Samples.post1)
  /\ Storage.id Samples.post1 =
       truncate_id (base64 (TextEncoder_encode
          (Storage.author Samples.post1 ++ Storage.content Samples.post1
           ++ Number_toString
                (getTime (publishTimeOf parseISO (timeElement Samples.report1)
                            (clock Samples.reading)))))).
Proof.
  apply (extracted_id_shape Samples.utc parseISO Samples.report1 Samples.reading Samples.post1).
  - split; intros s [= <-]; unfold wf_string, code_unit; by_evaluation.
  - by vm_compute.
Defined.
End IdRuns.

(** ** Timestamps *)

Section TimeFacts.
Import JS Content.

Lemma all_from_spec P count : forall start,
  all_from P start count = true ->
  forall z, start <= z < start + Z.of_nat count -> P z = true.
Proof.
  induction count as [|c IH]; intros start H z Hz; [lia|].
  simpl in H. apply andb_prop in H as [H0 H].
  destruct (decide (z = start)) as [->|]; [done|].
  apply (IH (start + 1) H). lia.
Qed.

(** A property checked on every number below a bound. *)
Lemma below_all (P : Z -> bool) (n : Z) :
  all_from P 0 (Z.to_nat n) = true -> forall z, 0 <= z < n -> P z = true.
Proof. intros H z Hz. apply (all_from_spec P _ 0 H). lia. Qed.

Lemma pad_2_digits n : 0 <= n <= 99 -> pad 2 n = digits2 n.
Proof.
  intros Hn.
  assert (H : all_from (fun z => bool_decide (pad 2 z = digits2 z)) 0 (Z.to_nat 100) = true)
    by (vm_compute; reflexivity).
  apply below_all with (z := n) in H; [|lia]. by apply bool_decide_eq_true_1 in H.
Qed.

Lemma Z_toString_4_digits y : 1000 <= y <= 9999 -> Z_toString y = digits4 y.
Proof.
  intros Hy.
  assert (H : all_from (fun z => bool_decide (Z_toString z = digits4 z)) 1000
                (Z.to_nat 9000) = true)
    by (vm_compute; reflexivity).
  apply all_from_spec with (z := y) in H; [|lia]. by apply bool_decide_eq_true_1 in H.
Qed.

(** The day of the year, counted from the 1st of March. *)
Lemma doy_range doe :
  0 <= doe < 146097 ->
  let yoe := (doe - doe / 1460 + doe / 36524 - doe / 146096) / 365 in
  let doy := doe - (365 * yoe + yoe / 4 - yoe / 100) in
  0 <= doy <= 365.
Proof. intros Hd yoe doy. subst doy yoe. Z.div_mod_to_equations. lia. Qed.

Lemma ymd_of_doe_range doe :
  0 <= doe < 146097 ->
  let '(_, m, d) := ymd_of_doe doe in 1 <= m <= 12 /\ 1 <= d <= 31.
Proof.
  intros Hd. unfold ymd_of_doe.
  pose proof (doy_range doe Hd) as H. simpl in H.
  set (yoe := (doe - doe / 1460 + doe / 36524 - doe / 146096) / 365) in *.
  set (doy := doe - (365 * yoe + yoe / 4 - yoe / 100)) in *.
  clearbody doy. clear yoe Hd.
  destruct (Z.ltb_spec ((5 * doy + 2) / 153) 10); Z.div_mod_to_equations; lia.
Qed.

Lemma civil_from_days_range days :
  let '(_, m, d) := civil_from_days days in 1 <= m <= 12 /\ 1 <= d <= 31.
Proof.
  unfold civil_from_days.
  pose proof (ymd_of_doe_range ((days + 719468) - (days + 719468) / 146097 * 146097)) as H.
  destruct (ymd_of_doe _) as [[y m] d]. apply H. Z.div_mod_to_equations. lia.
Qed.

Lemma MonthFromTime_range t : 0 <= MonthFromTime t <= 11.
Proof.
  unfold MonthFromTime. pose proof (civil_from_days_range (Day t)) as H.
  destruct (civil_from_days _) as [[y m] d]. simpl. lia.
Qed.

Lemma DateFromTime_range t : 1 <= DateFromTime t <= 31.
Proof.
  unfold DateFromTime. pose proof (civil_from_days_range (Day t)) as H.
  destruct (civil_from_days _) as [[y m] d]. simpl. lia.
Qed.

Lemma clock_fields_range t :
  0 <= HourFromTime t <= 23 /\ 0 <= MinFromTime t <= 59 /\ 0 <= SecFromTime t <= 59.
Proof.
  unfold HourFromTime, MinFromTime, SecFromTime. Z.div_mod_to_equations. lia.
Qed.

(** The text of a valid date in a year of four digits. *)
Lemma formatTimestamp_digits LocalTZA t :
  let lt := LocalTime LocalTZA t in
  1000 <= YearFromTime lt <= 9999 ->
  formatTimestamp LocalTZA (Some t) =
    digits4 (YearFromTime lt) ++ lit "/" ++ digits2 (MonthFromTime lt + 1) ++ lit "/"
    ++ digits2 (DateFromTime lt) ++ lit " " ++ digits2 (HourFromTime lt) ++ lit ":"
    ++ digits2 (MinFromTime lt) ++ lit ":" ++ digits2 (SecFromTime lt).
Proof.
  intros lt Hy. unfold formatTimestamp, pad2, getFullYear, getMonth, getDate, getHours,
    getMinutes, getSeconds, num_add, option_map, Number_toString. fold lt.
  pose proof (MonthFromTime_range lt). pose proof (DateFromTime_range lt).
  pose proof (clock_fields_range lt) as (? & ? & ?).
  change (padStart 2 48 (Z_toString ?z)) with (pad 2 z).
  rewrite Z_toString_4_digits by done.
  rewrite !pad_2_digits by lia. done.
Qed.

(** The relative-time pattern on a token: digits and then a unit letter. *)
Lemma match_relative_from_token run ds u :
  Forall (fun c => is_digit c = true) ds -> is_unit u = true ->
  (is_Some run \/ ds <> []) ->
  match_relative_from run (ds ++ [u]) = Some (default [] run ++ ds, u).
Proof.
  intros Hds Hu. revert run. induction Hds as [|d ds Hd _ IH]; intros run Hrun.
  - destruct Hrun as [[r ->]|]; [|done]. simpl.
    replace (is_digit u) with false.
    + by rewrite Hu, app_nil_r.
    + unfold is_unit, is_digit in *. simpl in Hu.
      repeat match goal with
             | H : context [?a =? ?b] |- _ => destruct (Z.eqb_spec a b)
             | |- context [?a <=? ?b] => destruct (Z.leb_spec a b)
             end; simpl in *; (done || lia).
  - simpl. rewrite Hd, IH by (left; by eexists). simpl. by rewrite <- app_assoc.
Qed.

Lemma match_relative_token ds u :
  ds <> [] -> Forall (fun c => is_digit c = true) ds -> is_unit u = true ->
  match_relative (ds ++ [u]) = Some (ds, u).
Proof.
  intros Hne Hds Hu. unfold match_relative.
  rewrite match_relative_from_token by (done || by right). done.
Qed.

Lemma parseRelativeTime_token ds u now :
  ds <> [] -> Forall (fun c => is_digit c = true) ds -> is_unit u = true ->
  parseRelativeTime (ds ++ [u]) now
  = TimeClip (Some (now - parseInt_digits ds * unit_millis u)).
Proof.
  intros Hne Hds Hu. unfold parseRelativeTime, unit_millis, Date_of_number.
  rewrite match_relative_token by done.
  unfold is_unit in Hu. simpl in Hu.
  repeat match goal with
         | |- context [?a =? ?b] => destruct (Z.eqb_spec a b)
         end; simpl in Hu; try done; do 2 f_equal; lia.
Qed.
End TimeFacts.

Section TimeClaims.
Import JS Content.
Variable LocalTZA : Z -> Z.
Variable Date_parse : jsstring -> Date.

(** Without a usable datetime attribute the publish time is that of the
    relative text. *)
Lemma publishTimeOf_relative te now :
  no_datetime te ->
  publishTimeOf Date_parse (Some te) now =
    let publishTime := parseRelativeTime (timeText te) now in
    if isNaN (getTime publishTime) then Date_of_number (Some 0) else publishTime.
Proof.
  intros [E|E]; unfold publishTimeOf; rewrite E; simpl;
    by destruct (timeText te).
Qed.

(** A text in which the pattern finds no relative time, an empty text
    included, resolves to the instant of the extraction. *)
Lemma publishTimeOf_unmatched te now :
  no_datetime te -> match_relative (timeText te) = None ->
  publishTimeOf Date_parse (Some te) now = Some now.
Proof.
  intros Hd Hm. rewrite publishTimeOf_relative by done.
  unfold parseRelativeTime. by rewrite Hm.
Qed.

Lemma publishTimeOf_absent now : publishTimeOf Date_parse None now = Some now.
Proof. reflexivity. Qed.

(** A datetime attribute that the engine cannot parse is taken as it is:
    the publish time is an Invalid Date, and the element is dropped when
    [toISOString] raises on it. *)
Lemma publishTimeOf_unparseable te c attr now :
  datetime te = Some (c :: attr) -> Date_parse (c :: attr) = None ->
  publishTimeOf Date_parse (Some te) now = None.
Proof. intros E Hp. unfold publishTimeOf. by rewrite E. Qed.

Lemma extractTweet_unparseable el te c attr r :
  timeElement el = Some te ->
  datetime te = Some (c :: attr) -> Date_parse (c :: attr) = None ->
  extractTweet LocalTZA Date_parse el r = None.
Proof.
  intros Ht E Hp. unfold extractTweet. rewrite Ht.
  rewrite (publishTimeOf_unparseable te c attr) by done.
  by destruct (generateId _ _ _ _).
Qed.

(** The author, content and id source of the post made from an element
    whose publish time is [instant]. *)
Local Abbreviation sourceOf el instant :=
  (or_else (userName el) (lit "Unknown") ++ or_else (tweetText el) []
   ++ Number_toString (getTime (Some instant))).

(** C7, as amended. For a time element without a usable datetime attribute
    whose text is a token of digits followed by s, m, h or d, evaluated at
    the instant [clock r]: the publish time is that instant minus the
    duration when this is a time value (of magnitude at most 8.64e15 ms),
    and the epoch for every token whose duration leaves that range. Every
    post extracted from the element carries the ISO string of the publish
    time as [publishTime] and, as [timestamp], the text that
    [formatTimestamp] writes for it: when its local year has four
    digits, the local year, month, day, hours, minutes and seconds, the
    last five zero-padded to two digits, as YYYY/MM/DD HH:MM:SS. The
    post is extracted whenever its id source can be encoded. *)
Theorem relative_time_normalized el te digits unit r :
  wf_element el ->
  timeElement el = Some te ->
  no_datetime te ->
  timeText te = digits ++ [unit] ->
  digits <> [] -> Forall (fun c => is_digit c = true) digits -> is_unit unit = true ->
  let t := clock r - parseInt_digits digits * unit_millis unit in
  let instant := if Z.abs t <=? maxTime then t else 0 in
  (Z.abs t <= maxTime -> publishTimeOf Date_parse (Some te) (clock r) = Some t)
  /\ (maxTime < Z.abs t -> publishTimeOf Date_parse (Some te) (clock r) = Some 0)
  /\ publishTimeOf Date_parse (Some te) (clock r) = Some instant
  /\ (let lt := LocalTime LocalTZA instant in
      1000 <= YearFromTime lt <= 9999 ->
      formatTimestamp LocalTZA (Some instant) =
        digits4 (YearFromTime lt) ++ lit "/" ++ digits2 (MonthFromTime lt + 1) ++ lit "/"
        ++ digits2 (DateFromTime lt) ++ lit " " ++ digits2 (HourFromTime lt) ++ lit ":"
        ++ digits2 (MinFromTime lt) ++ lit ":" ++ digits2 (SecFromTime lt))
  /\ (forall post,
        extractTweet LocalTZA Date_parse el r = Some post ->
        Storage.publishTime post = isoString instant
        /\ Storage.timestamp post = formatTimestamp LocalTZA (Some instant))
  /\ (encodable (sourceOf el instant) r ->
      is_Some (extractTweet LocalTZA Date_parse el r)).
Proof.
  intros Hwf Hte Hnd Htext Hne Hds Hu t instant.
  assert (Hpub : publishTimeOf Date_parse (Some te) (clock r) = Some instant).
  { rewrite publishTimeOf_relative, Htext, parseRelativeTime_token by done.
    fold t. unfold TimeClip, instant.
    destruct (Z.leb_spec (Z.abs t) maxTime); [done|]. reflexivity. }
  split; [|split; [|split; [exact Hpub|split; [|split]]]].
  - intros Ht. rewrite Hpub. unfold instant.
    destruct (Z.leb_spec (Z.abs t) maxTime); [done | lia].
  - intros Ht. rewrite Hpub. unfold instant.
    destruct (Z.leb_spec (Z.abs t) maxTime); [lia | done].
  - intros lt Hy. by apply formatTimestamp_digits.
  - intros post. unfold extractTweet. rewrite Hte, Hpub.
    destruct (generateId _ _ _ r) as [id|]; [|done]. cbn [toISOString option_map].
    intros [= <-]. split; reflexivity.
  - intros Henc.
    assert (Hid : generateId (or_else (userName el) (lit "Unknown"))
                    (or_else (tweetText el) []) (Some instant) r
                  = Some (truncate_id (base64 (TextEncoder_encode (sourceOf el instant))))).
    { destruct Hwf as [Hu' Ht'].
      eapply generateId_encodes; [| |exact Henc].
      - unfold or_else. destruct (userName el) as [[|c s]|]; try by apply Hu'.
        all: unfold wf_string, code_unit; by apply (bool_decide_unpack _).
      - unfold or_else. destruct (tweetText el) as [[|c s]|]; try by apply Ht'.
        all: constructor. }
    unfold extractTweet. rewrite Hte, Hpub, Hid. by eexists.
Qed.
End TimeClaims.

Section TimeRuns.
Import JS Content.

(** C7 (counterexample). The relative time of two hundred million days,
    read on 2023-10-27, lies before the earliest time value: the publish
    time is the epoch, not the instant of the extraction minus the
    duration. *)
Lemma relative_time_out_of_range :
  let T := clock Samples.reading in
  match_relative (lit "200000000d") = Some (lit "200000000", 100)
  /\ parseRelativeTime (lit "200000000d") T = None
  /\ publishTimeOf parseISO (timeElement Samples.ages_ago) T = Some 0
  /\ Some 0 <> Some (T - 200000000 * (24 * 60 * 60 * 1000))
  /\ Storage.publishTime <$> extractTweet Samples.utc parseISO Samples.ages_ago Samples.reading
     = Some (lit "1970-01-01T00:00:00.000Z").
Proof. repeat split; by vm_compute. Qed.

(** The year of a timestamp is written as it is, so a tweet dated to the
    year 928 has a timestamp of three digits before the first slash. *)
Example relative_time_year_928 :
  Storage.timestamp <$>
    extractTweet Samples.utc parseISO (Samples.relative (lit "400000d")) Samples.reading
  = Some (lit "928/08/28 09:46:40").
Proof. by vm_compute. Qed.

(** Two hours before 09:46:40Z, written for a host in UTC. *)
Example relative_time_two_hours :
  publishTimeOf parseISO (timeElement Samples.two_hours_ago) (clock Samples.reading)
  = Some (clock Samples.reading - 2 * (60 * 60 * 1000))
  /\ (fun post => (Storage.publishTime post, Storage.timestamp post)) <$>
       extractTweet Samples.utc parseISO Samples.two_hours_ago Samples.reading
     = Some (lit "2023-10-27T07:46:40.000Z", lit "2023/10/27 07:46:40").
Proof. split; by vm_compute. Qed.

Lemma relative_time_normalized_witness :
  publishTimeOf parseISO (Some {| datetime := None; timeText := lit "2h" |})
    (clock Samples.reading)
  = Some (clock Samples.reading - parseInt_digits (lit "2") * unit_millis 104)
  /\ publishTimeOf parseISO (Some {| datetime := None; timeText := lit "200000000d" |})
       (clock Samples.reading)
     = Some 0.
Proof.
  split.
  - refine (proj1 (relative_time_normalized Samples.utc parseISO Samples.two_hours_ago
                     {| datetime := None; timeText := lit "2h" |} (lit "2") 104
                     Samples.reading _ _ _ _ _ _ _) _).
    + split; intros s [= <-]; unfold wf_string, code_unit; by_evaluation.
    + reflexivity.
    + by left.
    + reflexivity.
    + done.
    + by_evaluation.
    + reflexivity.
    + by vm_compute.
  - refine (proj1 (proj2 (relative_time_normalized Samples.utc parseISO Samples.ages_ago
                     {| datetime := None; timeText := lit "200000000d" |}
                     (lit "200000000") 100 Samples.reading _ _ _ _ _ _ _)) _).
    + split; intros s [= <-]; unfold wf_string, code_unit; by_evaluation.
    + reflexivity.
    + by left.
    + reflexivity.
    + done.
    + by_evaluation.
    + reflexivity.
    + by vm_compute.
Defined.

(** C8 (failing input). The time element carries a datetime attribute that
    is not a date, and a text without a relative time. The publish time is
    an Invalid Date rather than the instant of the extraction, the
    timestamp is written from NaN, and [toISOString] raises: the tweet is
    dropped. *)
Theorem unparseable_datetime_is_kept :
  let T := clock Samples.reading in
  parseISO (lit "yesterday") = None
  /\ match_relative (lit "yesterday") = None
  /\ match_relative (lit "Oct 26") = None
  /\ publishTimeOf parseISO (timeElement Samples.undated) T = None
  /\ publishTimeOf parseISO (timeElement Samples.undated) T <> Some T
  /\ formatTimestamp Samples.utc (publishTimeOf parseISO (timeElement Samples.undated) T)
     = lit "NaN/NaN/NaN NaN:NaN:NaN"
  /\ toISOString (publishTimeOf parseISO (timeElement Samples.undated) T) = None
  /\ extractTweet Samples.utc parseISO Samples.undated Samples.reading = None
  /\ extractTweets Samples.utc parseISO [(Samples.undated, Samples.reading)] = [].
Proof. repeat split; by vm_compute. Qed.
End TimeRuns.

(** ** The retention store: what a merge keeps *)

Section StoreMerge.
Import JS Storage.
Variable Date_parse : jsstring -> Date.

Local Abbreviation valid := (valid_time Date_parse).
Local Abbreviation time := (instant Date_parse).
Local Abbreviation cmp := (byPublishTimeDesc Date_parse).

Lemma screen_novel st batch :
  filter (fun post => id post ∉@{gset jsstring} list_to_set (id <$> posts st)) batch
  = novel st batch.
Proof.
  unfold novel. apply list_filter_iff. intros p.
  by rewrite elem_of_list_to_set.
Qed.

Lemma addPosts_novel st batch now :
  addPosts Date_parse st batch now =
  ({| posts := take 20 (Array_sort cmp (novel st batch ++ posts st));
      lastFetchTime := isoString now; isFirstTime := false |},
   length (novel st batch)).
Proof. unfold addPosts. by rewrite screen_novel. Qed.

Lemma novel_valid st batch : Forall valid batch -> Forall valid (novel st batch).
Proof.
  rewrite !Forall_forall. intros H p Hp. apply H.
  unfold novel in Hp. by apply list_elem_of_filter in Hp as [_ Hp].
Qed.

Lemma merged_descending st batch :
  Forall valid batch -> Forall valid (posts st) ->
  StronglySorted (fun a b => time b <= time a) (Array_sort cmp (novel st batch ++ posts st)).
Proof.
  intros Hb Hs. apply Array_sort_desc, by_key_desc_valid, Forall_app.
  split; [by apply novel_valid | done].
Qed.

(** X1. After any run of one or more merges of posts with valid publish
    times, from any store whose posts have valid publish times, sorted or
    not, the stored posts are in descending order of publish time and
    number at most 20. *)
Theorem merges_sorted_bounded st calls :
  calls <> [] ->
  Forall (fun c => Forall valid c.1) calls -> Forall valid (posts st) ->
  descending Date_parse (posts (merges Date_parse st calls))
  /\ (length (posts (merges Date_parse st calls)) <= 20)%nat.
Proof.
  intros Hne Hc Hs.
  destruct calls as [|c calls' _] using rev_ind; [done|]. destruct c as [batch now].
  by apply merges_ordered_bounded.
Qed.

(** X3. A merge returns the number of posts of the batch whose id is not
    stored, which is at most the size of the batch; afterwards the store
    holds that many posts more than before, cut to 20. *)
Theorem addPosts_size st batch now :
  let r := addPosts Date_parse st batch now in
  r.2 = length (novel st batch)
  /\ (r.2 <= length batch)%nat
  /\ length (posts r.1) = (20 `min` (r.2 + length (posts st)))%nat.
Proof.
  rewrite addPosts_novel. cbn [fst snd posts]. split; [done|]. split.
  - unfold novel. apply length_filter.
  - rewrite length_take, Array_sort_length, length_app. lia.
Qed.

(** X4. When the store overflows, a merge drops the oldest: the posts
    taken in and the posts stored before are the posts kept together with
    the posts dropped, and no dropped post is newer than a kept one. *)
Theorem addPosts_keeps_newest st batch now :
  Forall valid batch -> Forall valid (posts st) ->
  let r := addPosts Date_parse st batch now in
  exists dropped,
    novel st batch ++ posts st ≡ₚ posts r.1 ++ dropped
    /\ length dropped = (r.2 + length (posts st) - 20)%nat
    /\ forall p q, p ∈ posts r.1 -> q ∈ dropped -> time q <= time p.
Proof.
  intros Hb Hs. rewrite addPosts_novel. cbn [fst snd posts].
  pose proof (merged_descending st batch Hb Hs) as Hsorted.
  set (l := Array_sort cmp (novel st batch ++ posts st)) in *.
  exists (drop 20 l). split; [|split].
  - rewrite take_drop. unfold l. by rewrite Array_sort_perm.
  - rewrite length_drop. unfold l. rewrite Array_sort_length, length_app. lia.
  - intros p q Hp Hq. rewrite <- (take_drop 20 l) in Hsorted.
    eapply StronglySorted_app_1_elem_of in Hsorted; [exact Hsorted | exact Hp | exact Hq].
Qed.

(** X5. After a merge [getLatestTimestamp] is a valid date that is not
    older than any post taken in or stored before: the latest timestamp
    never moves back. *)
Theorem addPosts_latest st batch now q :
  Forall valid batch -> Forall valid (posts st) ->
  q ∈ novel st batch ++ posts st ->
  exists t, getLatestTimestamp Date_parse (addPosts Date_parse st batch now).1 = Some (Some t)
            /\ time q <= t.
Proof.
  intros Hb Hs Hq. rewrite addPosts_novel. cbn [fst snd posts].
  pose proof (merged_descending st batch Hb Hs) as Hsorted.
  assert (Hv : Forall valid (Array_sort cmp (novel st batch ++ posts st))).
  { rewrite Array_sort_perm. apply Forall_app. split; [by apply novel_valid | done]. }
  rewrite <- (Array_sort_perm cmp) in Hq.
  destruct (Array_sort cmp (novel st batch ++ posts st)) as [|h l]; [by apply elem_of_nil in Hq|].
  apply Forall_cons in Hv as [[t Ht] _]. exists t.
  unfold getLatestTimestamp. simpl. split; [by rewrite Ht|].
  apply StronglySorted_inv in Hsorted as [_ Hh].
  assert (Hth : time h = t) by (unfold instant; by rewrite Ht).
  apply elem_of_cons in Hq as [->|Hq]; [lia|].
  rewrite Forall_forall in Hh. specialize (Hh q Hq). lia.
Qed.

(** X6. A post of the batch never takes the place of a stored post with
    the same id: whatever is stored after a merge under an id that was
    stored before is a post that was stored before. *)
Theorem addPosts_known_id_kept st batch now p :
  p ∈ posts (addPosts Date_parse st batch now).1 ->
  id p ∈ id <$> posts st -> p ∈ posts st.
Proof.
  rewrite addPosts_novel. cbn [fst snd posts]. intros Hp Hid.
  eapply elem_of_sublist in Hp; [|apply sublist_take].
  rewrite Array_sort_perm in Hp.
  apply elem_of_app in Hp as [Hp|Hp]; [|done].
  unfold novel in Hp. apply list_elem_of_filter in Hp as [Hn _]. done.
Qed.

(** X7. Merging the same batch a second time changes no post and returns
    0, provided the first merge dropped nothing (the posts it took in and
    the posts stored before number at most 20); only [lastFetchTime] moves. *)
Theorem addPosts_again st batch now now' :
  Forall valid batch -> Forall valid (posts st) ->
  let r := addPosts Date_parse st batch now in
  (r.2 + length (posts st) <= 20)%nat ->
  addPosts Date_parse r.1 batch now' =
  ({| posts := posts r.1; lastFetchTime := isoString now'; isFirstTime := false |}, 0%nat).
Proof.
  intros Hb Hs. rewrite (addPosts_novel st). cbn [fst snd posts]. intros Hcap.
  pose proof (merged_descending st batch Hb Hs) as Hsorted.
  set (l := Array_sort cmp (novel st batch ++ posts st)) in *.
  assert (Hlen : (length l <= 20)%nat).
  { unfold l. rewrite Array_sort_length, length_app. lia. }
  rewrite (take_ge l) by done.
  assert (Hv : Forall valid l).
  { unfold l. rewrite Array_sort_perm. apply Forall_app. split; [by apply novel_valid | done]. }
  assert (Hknown : Forall (fun p => id p ∈ id <$> l) batch).
  { apply Forall_forall. intros p Hp.
    destruct (decide (id p ∈ id <$> posts st)) as [Hin|Hout].
    - apply list_elem_of_fmap in Hin as (p' & -> & Hp').
      apply list_elem_of_fmap. exists p'. split; [done|].
      unfold l. rewrite Array_sort_perm. apply elem_of_app. by right.
    - apply list_elem_of_fmap. exists p. split; [done|].
      unfold l. rewrite Array_sort_perm. apply elem_of_app. left.
      unfold novel. by apply list_elem_of_filter. }
  unfold addPosts. cbn [posts]. rewrite (screen_known l batch Hknown).
  cbn [app length]. unfold slice0.
  rewrite (Array_sort_sorted cmp l) by (by apply descending_accepted).
  by rewrite take_ge.
Qed.
End StoreMerge.

Section StoreMergeRuns.
Import JS Storage.

Lemma merges_sorted_bounded_witness :
  descending parseISO
    (posts (merges parseISO defaultState
              [(Samples.reports, 1698400000000); (Samples.batch25, 1698400010000)]))
  /\ (length (posts (merges parseISO defaultState
                       [(Samples.reports, 1698400000000%Z);
                        (Samples.batch25, 1698400010000%Z)]))
      <= 20)%nat.
Proof.
  apply (merges_sorted_bounded parseISO defaultState
           [(Samples.reports, 1698400000000); (Samples.batch25, 1698400010000)]).
  - done.
  - unfold valid_time. by_evaluation.
  - apply Forall_nil_2.
Defined.

Lemma merges_unique_ids_witness :
  unique_ids
    (posts (merges parseISO Samples.store1
              [(Samples.batch25, 1698400010000); ([Samples.bulletin_post], 1698400020000)])).
Proof.
  apply (merges_unique_ids parseISO Samples.store1
           [(Samples.batch25, 1698400010000); ([Samples.bulletin_post], 1698400020000)]).
  - unfold unique_ids. by_evaluation.
  - unfold unique_ids. by_evaluation.
Defined.

Lemma addPosts_keeps_newest_witness :
  exists dropped,
    novel defaultState Samples.batch25 ++ posts defaultState
      ≡ₚ posts (addPosts parseISO defaultState Samples.batch25 1698400000000).1 ++ dropped
    /\ length dropped =
       ((addPosts parseISO defaultState Samples.batch25 1698400000000%Z).2
        + length (posts defaultState) - 20)%nat
    /\ forall p q,
         p ∈ posts (addPosts parseISO defaultState Samples.batch25 1698400000000).1 ->
         q ∈ dropped -> instant parseISO q <= instant parseISO p.
Proof.
  apply (addPosts_keeps_newest parseISO defaultState Samples.batch25 1698400000000).
  - unfold valid_time. by_evaluation.
  - apply Forall_nil_2.
Defined.

Lemma addPosts_latest_witness :
  exists t,
    getLatestTimestamp parseISO
      (addPosts parseISO Samples.store1 [Samples.bulletin_post] 1698400010000).1
    = Some (Some t)
    /\ instant parseISO Samples.bulletin_post <= t.
Proof.
  apply (addPosts_latest parseISO Samples.store1 [Samples.bulletin_post] 1698400010000
           Samples.bulletin_post).
  - unfold valid_time. by_evaluation.
  - unfold valid_time. by_evaluation.
  - apply elem_of_app. left. vm_compute. left.
Defined.

Lemma addPosts_known_id_kept_witness : Samples.post1 ∈ posts Samples.store1.
Proof.
  apply (addPosts_known_id_kept parseISO Samples.store1 Samples.reports 1698400010000
           Samples.post1).
  - vm_compute. left.
  - vm_compute. left.
Defined.

Lemma addPosts_again_witness :
  addPosts parseISO
    (addPosts parseISO Samples.store1 [Samples.bulletin_post] 1698400010000).1
    [Samples.bulletin_post] 1698400020000
  = ({| posts := posts (addPosts parseISO Samples.store1 [Samples.bulletin_post]
                          1698400010000).1;
        lastFetchTime := isoString 1698400020000; isFirstTime := false |}, 0%nat).
Proof.
  apply (addPosts_again parseISO Samples.store1 [Samples.bulletin_post] 1698400010000
           1698400020000).
  - unfold valid_time. by_evaluation.
  - unfold valid_time. by_evaluation.
  - vm_compute. lia.
Defined.
End StoreMergeRuns.

(** ** The content script: one round of monitoring *)

Section MonitorFacts.
Import JS Storage Monitor.
Variable LocalTZA : Z -> Z.
Variable Date_parse : jsstring -> Date.

Lemma monitorTwitter_cases href els st now :
  monitorTwitter LocalTZA Date_parse href els st now = (st, None)
  \/ exists saved,
       saved = tweetsToSave Date_parse st (Content.extractTweets LocalTZA Date_parse els)
       /\ saved <> []
       /\ monitorTwitter LocalTZA Date_parse href els st now =
          ((addPosts Date_parse st saved now).1,
           Some {| updated_count := length saved; updated_isFirstTime := isFirstTime st |}).
Proof.
  unfold monitorTwitter.
  destruct (negb _); [by left|].
  destruct (0 <? length (Content.extractTweets LocalTZA Date_parse els))%nat; [|by left].
  destruct (tweetsToSave Date_parse st (Content.extractTweets LocalTZA Date_parse els))
    as [|p saved] eqn:Hsave; [by left|].
  right. exists (p :: saved). split; [done|]. split; [done|]. reflexivity.
Qed.

Lemma Date_gt_spec a b :
  Date_gt a b = true <-> exists x y, a = Some x /\ b = Some y /\ y < x.
Proof.
  unfold Date_gt, getTime. split.
  - destruct a as [x|], b as [y|]; try done. intros H%Z.ltb_lt. eauto.
  - intros (x & y & -> & -> & H). by apply Z.ltb_lt.
Qed.

(** X8. A round of monitoring sends TWEETS_UPDATED exactly when it writes
    the store: without a message the store is as it was, [lastFetchTime]
    included. The count of the message is positive, at most 20 on the
    first round, and bounds the growth of the store from above (it counts
    the tweets handed to the merge, also those whose id was stored); the
    flag of the message is the stored [isFirstTime], which is false
    afterwards. *)
Theorem monitorTwitter_notifies href els st now :
  let r := monitorTwitter LocalTZA Date_parse href els st now in
  (r.2 = None -> r.1 = st)
  /\ (forall m, r.2 = Some m ->
        (0 < updated_count m)%nat
        /\ updated_isFirstTime m = isFirstTime st
        /\ (isFirstTime st = true -> (updated_count m <= 20)%nat)
        /\ (length (posts r.1) <= length (posts st) + updated_count m)%nat
        /\ lastFetchTime r.1 = isoString now
        /\ isFirstTime r.1 = false).
Proof.
  destruct (monitorTwitter_cases href els st now) as [->|(saved & Hsaved & Hne & ->)];
    cbn [fst snd]; split; try done.
  intros m [= <-]. cbn [updated_count updated_isFirstTime].
  split; [destruct saved; [done | simpl; lia]|].
  split; [done|]. split.
  - intros Hfirst. rewrite Hsaved. unfold tweetsToSave. rewrite Hfirst.
    unfold slice0. rewrite length_take. lia.
  - split; [|done].
    rewrite addPosts_posts, length_take, Array_sort_length, length_app.
    pose proof (length_filter
      (fun post => id post ∉@{gset jsstring} list_to_set (id <$> posts st)) saved).
    lia.
Qed.

(** X9. After the first round, with a post in the store, a round of
    monitoring only takes in tweets that are strictly newer than the first
    stored post: every post stored afterwards was stored before or has a
    valid publish time later than that of the post that headed the store. *)
Theorem monitorTwitter_only_newer href els st now newest rest p :
  isFirstTime st = false -> posts st = newest :: rest ->
  p ∈ posts (monitorTwitter LocalTZA Date_parse href els st now).1 ->
  p ∈ posts st
  \/ exists t t0, Date_parse (publishTime p) = Some t
                  /\ Date_parse (publishTime newest) = Some t0 /\ t0 < t.
Proof.
  intros Hfirst Hposts.
  destruct (monitorTwitter_cases href els st now) as [->|(saved & Hsaved & Hne & ->)];
    cbn [fst]; [by left|].
  intros Hp. apply addPosts_from in Hp as [Hp|Hp]; [|by left]. right.
  rewrite Hsaved in Hp. unfold tweetsToSave, getLatestTimestamp in Hp.
  rewrite Hfirst, Hposts in Hp.
  apply list_elem_of_filter in Hp as [Hgt _].
  by apply Date_gt_spec in Hgt.
Qed.

(** X10. After the first round, when no extracted tweet is newer than the
    first stored post, a round of monitoring does nothing: the store is
    left as it is and no message is sent. *)
Theorem monitorTwitter_nothing_newer href els st now newest rest t0 :
  isFirstTime st = false -> posts st = newest :: rest ->
  Date_parse (publishTime newest) = Some t0 ->
  Forall (fun p => forall t, Date_parse (publishTime p) = Some t -> t <= t0)
    (Content.extractTweets LocalTZA Date_parse els) ->
  monitorTwitter LocalTZA Date_parse href els st now = (st, None).
Proof.
  intros Hfirst Hposts Hnewest Hold.
  destruct (monitorTwitter_cases href els st now) as [->|(saved & Hsaved & Hne & _)]; [done|].
  exfalso. apply Hne. rewrite Hsaved. unfold tweetsToSave, getLatestTimestamp.
  rewrite Hfirst, Hposts. clear Hsaved Hne.
  induction Hold as [|p l Hp _ IH]; [done|].
  rewrite filter_cons. destruct (decide _) as [Hgt|_]; [|exact IH].
  apply Date_gt_spec in Hgt as (x & y & Hx & Hy & Hlt).
  rewrite Hnewest in Hy. injection Hy as <-. specialize (Hp x Hx). lia.
Qed.
End MonitorFacts.

Section MonitorRuns.
Import JS Storage Monitor.

(** The two weather reports share an id: on the first round both are
    announced and both are stored. *)
Example monitor_first_round :
  (fun '(st, m) => (id <$> posts st, m))
    (monitorTwitter Samples.utc parseISO Samples.home
       [(Samples.report1, Samples.reading); (Samples.report2, Samples.reading)]
       defaultState 1698400000000)
  = ([lit "RGFpbHkgV2VhdGhl"; lit "RGFpbHkgV2VhdGhl"],
     Some {| updated_count := 2; updated_isFirstTime := true |}).
Proof. by vm_compute. Qed.

(** On a later round the second report is newer than the stored first one,
    so it is announced; its id is stored already, so it is not taken in. *)
Example monitor_announces_what_it_drops :
  (fun '(st, m) => (posts st, m))
    (monitorTwitter Samples.utc parseISO Samples.home
       [(Samples.report2, Samples.reading)] Samples.store1 1698400010000)
  = ([Samples.post1], Some {| updated_count := 1; updated_isFirstTime := false |}).
Proof. by vm_compute. Qed.

Lemma monitorTwitter_only_newer_witness :
  Samples.bulletin_post ∈ posts Samples.store1
  \/ exists t t0, parseISO (publishTime Samples.bulletin_post) = Some t
                  /\ parseISO (publishTime Samples.post1) = Some t0 /\ t0 < t.
Proof.
  apply (monitorTwitter_only_newer Samples.utc parseISO Samples.home
           [(Samples.bulletin, Samples.reading)] Samples.store1 1698400010000
           Samples.post1 [] Samples.bulletin_post).
  - reflexivity.
  - by vm_compute.
  - vm_compute. left.
Defined.

Lemma monitorTwitter_nothing_newer_witness :
  monitorTwitter Samples.utc parseISO Samples.home
    [(Samples.report1, Samples.later)] Samples.store1 1698400060000
  = (Samples.store1, None).
Proof.
  apply (monitorTwitter_nothing_newer Samples.utc parseISO Samples.home
           [(Samples.report1, Samples.later)] Samples.store1 1698400060000
           Samples.post1 [] 1698384197000).
  - reflexivity.
  - by vm_compute.
  - by vm_compute.
  - assert (E : Content.extractTweets Samples.utc parseISO
                  [(Samples.report1, Samples.later)] = [Samples.post1]) by (by vm_compute).
    rewrite E. apply Forall_cons_2; [|apply Forall_nil_2].
    intros t Ht. vm_compute in Ht. injection Ht as <-. lia.
Defined.
End MonitorRuns.



(** ** The scraper: reading the tweets in view *)

Section ViewportFacts.
Import JS Viewport.
Variable LocalTZA : Z -> Z.
Variable Date_parse : jsstring -> Date.

Lemma padStart_length n c s : (n <= length (padStart n c s))%nat.
Proof. unfold padStart. rewrite length_app, repeat_length. lia. Qed.

Lemma formatTimestamp_length d : (16 <= length (Content.formatTimestamp LocalTZA d))%nat.
Proof.
  unfold Content.formatTimestamp, Content.pad2. rewrite !length_app.
  pose proof (proj2 (Number_toString_wf (getFullYear LocalTZA d))) as Hy.
  destruct (Number_toString (getFullYear LocalTZA d)) as [|y0 yr]; [done|].
  repeat match goal with
  | |- context [padStart 2 48 ?s] =>
      let H := fresh in pose proof (padStart_length 2 48 s) as H;
      generalize dependent (padStart 2 48 s); intros
  end.
  simpl. lia.
Qed.

Lemma isoString_nonempty t : isoString t <> [].
Proof.
  unfold isoString. intros H. apply app_eq_nil in H as [_ H]. discriminate H.
Qed.

Lemma formatDisplayTimestamp_guards c r :
  formatDisplayTimestamp LocalTZA Date_parse (Some (c :: r)) <> lit "N/A"
  /\ formatDisplayTimestamp LocalTZA Date_parse (Some (c :: r)) <> lit "Invalid Date".
Proof.
  unfold formatDisplayTimestamp.
  pose proof (formatTimestamp_length (Date_parse (c :: r))) as H.
  split; intros E; rewrite E in H; simpl in H; lia.
Qed.

Lemma rawDatetime_nonempty a now :
  exists c r, Content.or_else (datetime a) (isoString now) = c :: r.
Proof.
  destruct (datetime a) as [[|c r]|]; simpl; eauto;
    pose proof (isoString_nonempty now); destruct (isoString now); eauto; done.
Qed.

(** X13. An article that neither ad check flags is pushed exactly when
    its trimmed tweet text is neither empty nor the text N/A. The two
    checks of the display timestamp never turn an article away: the
    timestamp is never N/A, since the raw datetime is never empty, and
    never the text Invalid Date, whatever the datetime attribute holds. *)
Theorem scrapeTweet_pushes a now :
  is_Some (scrapeTweet LocalTZA Date_parse a now) <->
  promotedContext a = false /\ isPromoted a = false
  /\ Content.or_else (trim <$> tweetText a) (lit "N/A") <> lit "N/A".
Proof.
  unfold scrapeTweet.
  destruct (promotedContext a); [split; [by intros [? ?] | by intros [? _]]|].
  destruct (isPromoted a); [split; [by intros [? ?] | by intros (_ & ? & _)]|].
  destruct (rawDatetime_nonempty a now) as (c & r & ->).
  destruct (formatDisplayTimestamp_guards c r) as [H1 H2].
  rewrite (bool_decide_eq_false_2 _ H1), (bool_decide_eq_false_2 _ H2). cbn [negb andb].
  rewrite andb_true_r.
  destruct (decide (Content.or_else (trim <$> tweetText a) (lit "N/A") = lit "N/A")) as [E|E].
  - rewrite (bool_decide_eq_true_2 _ E). split; [by intros [? ?] | by intros (_ & _ & ?)].
  - rewrite (bool_decide_eq_false_2 _ E). split; [done | by eexists].
Qed.

(** X14. A datetime attribute that the engine cannot parse does not keep a
    tweet back: the tweet is pushed with the attribute as its raw datetime
    and a display timestamp written from NaN. *)
Theorem scrapeTweet_unparseable a now c r t :
  datetime a = Some (c :: r) -> Date_parse (c :: r) = None ->
  scrapeTweet LocalTZA Date_parse a now = Some t ->
  Scraper.rawDatetime t = c :: r
  /\ Scraper.displayTimestamp t = lit "NaN/NaN/NaN NaN:NaN:NaN".
Proof.
  unfold scrapeTweet. intros Hd Hp.
  destruct (promotedContext a); [done|]. destruct (isPromoted a); [done|].
  rewrite Hd. cbn [Content.or_else]. unfold formatDisplayTimestamp. rewrite Hp.
  destruct (_ && _); [|done]. intros [= <-]. done.
Qed.
End ViewportFacts.

Section ViewportRuns.
Import JS Viewport.

(** An article of the feed, and the same article under a social context
    that names a reader called Adam: the second is taken for an ad. *)
Example scrape_article :
  scrapeCurrentViewPortTweets Samples.utc parseISO
    [(Samples.article None (Some (lit "2023-10-27T05:23:17.000Z")), 1698400000000);
     (Samples.article (Some (lit "Adam reposted")) (Some (lit "2023-10-27T05:23:18.000Z")),
      1698400000000)]
  = [{| Scraper.author := lit "Daily Weather Report@weather (@weather)";
        Scraper.displayTimestamp := lit "2023/10/27 05:23:17";
        Scraper.content := lit "Sunny today";
        Scraper.rawDatetime := lit "2023-10-27T05:23:17.000Z" |}].
Proof. by vm_compute. Qed.

Lemma scrapeTweet_unparseable_witness :
  Scraper.rawDatetime
    {| Scraper.author := lit "Daily Weather Report@weather (@weather)";
       Scraper.displayTimestamp := lit "NaN/NaN/NaN NaN:NaN:NaN";
       Scraper.content := lit "Sunny today";
       Scraper.rawDatetime := lit "yesterday" |} = lit "yesterday"
  /\ Scraper.displayTimestamp
       {| Scraper.author := lit "Daily Weather Report@weather (@weather)";
          Scraper.displayTimestamp := lit "NaN/NaN/NaN NaN:NaN:NaN";
          Scraper.content := lit "Sunny today";
          Scraper.rawDatetime := lit "yesterday" |} = lit "NaN/NaN/NaN NaN:NaN:NaN".
Proof.
  apply (scrapeTweet_unparseable Samples.utc parseISO
           (Samples.article None (Some (lit "yesterday"))) 1698400000000
           121 (lit "esterday")).
  - reflexivity.
  - reflexivity.
  - by vm_compute.
Defined.
End ViewportRuns.

(** ** The side panel's merge of a payload *)

Section SidePanelFacts.
Import JS SidePanel.
Variable Date_parse : jsstring -> Date.
Variable localeCompare : jsstring -> jsstring -> Z.

Local Abbreviation byTimestamp :=
  (fun a b : Tweet => Some (localeCompare (timestamp b) (timestamp a))).
Local Abbreviation transformed payload :=
  ((fun '(rawTweet, now) => transform Date_parse rawTweet now) <$> payload).
Local Abbreviation trulyNew prev payload :=
  (filter (fun t : Tweet => id t ∉@{gset jsstring} list_to_set (id <$> prev))
     (transformed payload)).

Lemma onTweetData_cases (prev : list Tweet) (payload : list (Scraper.RawTweet * Z)) :
  (trulyNew prev payload = [] /\ onTweetData Date_parse localeCompare prev payload = (prev, None))
  \/ (trulyNew prev payload <> []
      /\ exists shown,
           shown = take 20 (Array_sort byTimestamp (prev ++ trulyNew prev payload))
           /\ onTweetData Date_parse localeCompare prev payload =
              (shown, Some {| storedTweets := shown;
                              lastFetchTimestamp :=
                                match shown with
                                | t :: _ => match timestamp t with
                                            | [] => None
                                            | c :: r => Some (c :: r)
                                            end
                                | [] => None
                                end |})).
Proof.
  unfold onTweetData.
  destruct (trulyNew prev payload) as [|t l] eqn:E; [by left|].
  right. split; [done|]. eexists. split; reflexivity.
Qed.

Lemma transformed_ids (payload : list (Scraper.RawTweet * Z)) :
  id <$> transformed payload = Scraper.uniqueKey <$> payload.*1.
Proof.
  induction payload as [|[raw now] payload IH]; [done|].
  rewrite !fmap_cons. f_equal. exact IH.
Qed.

Lemma trulyNew_spec (prev : list Tweet) (payload : list (Scraper.RawTweet * Z)) t :
  t ∈ trulyNew prev payload <->
  (id t ∉ id <$> prev)
  /\ (exists raw now, (raw, now) ∈ payload /\ t = transform Date_parse raw now).
Proof.
  rewrite list_elem_of_filter, elem_of_list_to_set.
  split; intros [Hn H]; (split; [done|]).
  - apply list_elem_of_fmap in H as ([raw now] & -> & Hin). eauto.
  - destruct H as (raw & now & Hin & ->). apply list_elem_of_fmap. by exists (raw, now).
Qed.

(** X15. The side panel leaves its tweets as they are and saves nothing
    exactly when every tweet of the payload has an id (author and raw
    datetime) that is displayed already. *)
Theorem onTweetData_nothing_new prev payload :
  ((onTweetData Date_parse localeCompare prev payload).2 = None <->
     Forall (fun raw => generateTweetId raw ∈ id <$> prev) payload.*1)
  /\ ((onTweetData Date_parse localeCompare prev payload).2 = None -> (onTweetData Date_parse localeCompare prev payload).1 = prev).
Proof.
  destruct (onTweetData_cases prev payload) as [[Hnone ->]|[Hsome (shown & _ & ->)]];
    cbn [fst snd]; (split; [|done]).
  - split; [intros _|done]. apply Forall_forall. intros raw Hraw.
    apply list_elem_of_fmap in Hraw as ([raw' now] & -> & Hin). cbn [fst].
    destruct (decide (generateTweetId raw' ∈ id <$> prev)) as [|Hout]; [done|].
    exfalso. eapply (elem_of_nil (transform Date_parse raw' now)).
    rewrite <- Hnone. apply trulyNew_spec. split; [done|]. eauto.
  - split; [done|]. intros Hall. exfalso. apply Hsome.
    destruct (trulyNew prev payload) as [|t l] eqn:E; [done|].
    assert (Ht : t ∈ trulyNew prev payload) by (rewrite E; left).
    apply trulyNew_spec in Ht as [Hn (raw & now & Hin & ->)].
    rewrite Forall_forall in Hall. exfalso. apply Hn. apply Hall.
    apply list_elem_of_fmap. by exists (raw, now).
Qed.

(** X16. When the side panel saves, it saves the tweets it goes on to
    display: between 1 and 20 of them, each one displayed before or made
    from a tweet of the payload whose id was not displayed; the timestamp
    saved with them is that of the first of them, if it is not empty. *)
Theorem onTweetData_saved prev payload shown saved :
  onTweetData Date_parse localeCompare prev payload = (shown, Some saved) ->
  storedTweets saved = shown
  /\ (0 < length shown <= 20)%nat
  /\ lastFetchTimestamp saved = (head shown ≫= fun t =>
       match timestamp t with [] => None | c :: r => Some (c :: r) end)
  /\ (forall t, t ∈ shown ->
        t ∈ prev
        \/ ((id t ∉ id <$> prev)
            /\ (exists raw now, (raw, now) ∈ payload /\ t = transform Date_parse raw now))).
Proof.
  destruct (onTweetData_cases prev payload) as [[_ ->]|[Hsome (l & Hl & ->)]]; [done|].
  intros [= <- <-]. cbn [storedTweets lastFetchTimestamp].
  split; [done|]. split; [|split].
  - rewrite Hl, length_take, Array_sort_length, length_app.
    destruct (trulyNew prev payload); [done|]. rewrite length_cons. lia.
  - by destruct l.
  - intros t Ht. rewrite Hl in Ht.
    eapply elem_of_sublist in Ht; [|apply sublist_take].
    rewrite Array_sort_perm in Ht.
    apply elem_of_app in Ht as [Ht|Ht]; [by left|]. right.
    by apply trulyNew_spec in Ht.
Qed.

Lemma onTweetData_NoDup prev payload :
  NoDup (id <$> prev) -> NoDup (Scraper.uniqueKey <$> payload.*1) ->
  NoDup (id <$> (onTweetData Date_parse localeCompare prev payload).1).
Proof.
  intros Hprev Hpay.
  destruct (onTweetData_cases prev payload) as [[_ ->]|[_ (l & Hl & ->)]]; [done|].
  cbn [fst]. rewrite Hl.
  eapply sublist_NoDup; [|apply fmap_sublist, sublist_take].
  rewrite Array_sort_perm, fmap_app. apply NoDup_app. split; [done|]. split.
  - intros i Hi (t & -> & Ht)%list_elem_of_fmap.
    by apply trulyNew_spec in Ht as [Hn _].
  - eapply sublist_NoDup; [|apply fmap_sublist, sublist_filter].
    by rewrite transformed_ids.
Qed.

(** X17. A payload that the scroll collector gathered keeps the ids of
    the displayed tweets unique: the collector's key and the side panel's
    id are the same text, and the collector returns no key twice. *)
Theorem collected_payload_unique_ids views c r prev payload :
  Scraper.scrapeTweetsWithScrolling views = Some (c, r) ->
  payload.*1 = Scraper.collectedTweets c ->
  NoDup (id <$> prev) ->
  NoDup (id <$> (onTweetData Date_parse localeCompare prev payload).1).
Proof.
  intros Hrun Hpay Hprev. apply onTweetData_NoDup; [done|]. rewrite Hpay.
  destruct (run_ends views) as (k & Hk & Hrun'). rewrite Hrun' in Hrun.
  injection Hrun as <- _.
  destruct (after_first views k) as [-> _]. apply first_by_key_NoDup.
Qed.
End SidePanelFacts.

Section SidePanelRuns.
Import JS SidePanel.

Lemma onTweetData_saved_witness :
  storedTweets
    {| storedTweets := [transform parseISO (Samples.raw 0) 1698400000000];
       lastFetchTimestamp := Some (lit "2023-10-27T05:23:17.000Z") |}
  = [transform parseISO (Samples.raw 0) 1698400000000].
Proof.
  apply (onTweetData_saved parseISO Samples.codeUnitCompare []
           [(Samples.raw 0, 1698400000000)]
           [transform parseISO (Samples.raw 0) 1698400000000]
           {| storedTweets := [transform parseISO (Samples.raw 0) 1698400000000];
              lastFetchTimestamp := Some (lit "2023-10-27T05:23:17.000Z") |}).
  by vm_compute.
Defined.

Lemma collected_payload_unique_ids_witness :
  NoDup (id <$> (onTweetData parseISO Samples.codeUnitCompare []
                   ((fun t => (t, 1698400000000)) <$> Scraper.collectedTweets Samples.steady_run)).1).
Proof.
  apply (collected_payload_unique_ids parseISO Samples.codeUnitCompare Samples.steady
           Samples.steady_run Scraper.TargetReached []).
  - exact steady_run_ends.
  - rewrite <- list_fmap_compose. apply list_fmap_id.
  - apply NoDup_nil_2.
Defined.
End SidePanelRuns.

(** ** The background script: what the handlers do and never do *)

Section BackgroundTraces.
Import JS Background.

Ltac step_handler :=
  cbv [run handle intervalCallback reloadCallback onUpdated reloadedSendCallback
       fetchSendCallback tabReadyCallback queryCallback on_FETCH_TWEETS_REQUEST
       on_SCRAPE_COMPLETE_RESPONSE on_SCRAPE_ERROR_RESPONSE
       sendScrapeRequestToTabAndUpdateState startPeriodicRefresh stopPeriodicRefresh
       host_clearInterval host_setInterval set_refreshIntervalId set_twitterTabId
       set_isReloadingForScrape set_reloadingTabId
       mbind mret M_bind M_ret bind ret get modify emit
       refreshIntervalId twitterTabId isReloadingForScrape reloadingTabId
       liveIntervals nextHandle fst snd app].

Ltac by_handler_cases :=
  repeat first
    [ rewrite forget_own_handle
    | progress step_handler
    | match goal with
      | |- context [if ?b then _ else _] => destruct b eqn:?
      | |- context [match ?x with Some _ => _ | None => _ end] => destruct x eqn:?
      | |- context [match ?x with [] => _ | _ :: _ => _ end] => destruct x eqn:?
      end ].



(** X18. In every state that the background script can reach no interval
    is live and none is held, or exactly one interval is live, the script
    holds its handle, and a tab is tracked. *)
Theorem reachable_single_interval s :
  reachable s ->
  (liveIntervals s = [] /\ refreshIntervalId s = None)
  \/ (exists h tab, liveIntervals s = [h] /\ refreshIntervalId s = Some h
                    /\ twitterTabId s = Some tab).
Proof.
  intros [Htr Htab]%reachable_in_step. unfold timer_tracked in Htr.
  destruct (refreshIntervalId s) as [h|]; [|by left]. right.
  destruct (twitterTabId s) as [tab|]; [by eauto|]. by specialize (Htab eq_refl).
Qed.


(** X20. A tab update makes the script send a scrape request only to the
    updated tab itself, only when that update completes the reload that the
    script awaits for this tab, and only when the tab is on a home URL. *)
Theorem scrape_request_after_update s tabId complete url t :
  tabs_sendMessage t ∈ (run (TabUpdated tabId complete url) s).2 ->
  t = tabId /\ complete = true /\ isReloadingForScrape s = true
  /\ reloadingTabId s = Some tabId /\ onHome url = true.
Proof.
  destruct s as [rid tab rel rtab live next].
  cbn [isReloadingForScrape reloadingTabId].
  step_handler. unfold same_tab.
  destruct rel; cbn [andb negb].
  - destruct rtab as [rtab|]; [|by intros ?%elem_of_nil].
    destruct (Z.eqb_spec tabId rtab) as [->|]; [|by intros ?%elem_of_nil].
    destruct complete; cbn [andb]; [|by intros ?%elem_of_nil].
    destruct (onHome url) eqn:Hhome.
    + step_handler. intros [= ->]%list_elem_of_singleton. done.
    + destruct rid; step_handler; intros H; repeat (apply elem_of_cons in H as [H|H]; [done|]);
        by apply elem_of_nil in H.
  - destruct rtab as [rtab|]; [|by intros ?%elem_of_nil].
    destruct (tabId =? rtab), complete; cbn [andb]; step_handler; by intros ?%elem_of_nil.
Qed.

(** X21. Only a completed scrape sets an interval, and only while a tab
    is tracked; only the firing of the timer reloads a tab, and the tab it
    reloads is the tracked one. *)
Theorem causes_of_host_calls e s :
  (forall h, setInterval h ∈ (run e s).2 ->
     e = ScrapeComplete /\ is_Some (twitterTabId s) /\ h = nextHandle s)
  /\ (forall t, tabs_reload t ∈ (run e s).2 ->
        (exists h, e = TimerFired h) /\ twitterTabId s = Some t).
Proof.
  destruct s as [rid tab rel rtab live next]. cbn [twitterTabId nextHandle].
  split; intros x; destruct e; by_handler_cases; intros H;
    repeat (apply elem_of_cons in H as [H|H]; [simplify_eq|]);
    try (by apply elem_of_nil in H); eauto.
Qed.

Lemma stays_stopped_step e s :
  in_step s -> liveIntervals s = [] -> e <> ScrapeComplete ->
  liveIntervals (run e s).1 = [].
Proof.
  intros [Htr _] Hlive Hne. unfold timer_tracked in Htr. rewrite Hlive in Htr.
  destruct s as [rid tab rel rtab live next]. cbn in *. subst live.
  destruct rid; [done|]. destruct e; try done; by_handler_cases; done.
Qed.

Lemma runs_stay_stopped es : forall s,
  in_step s -> liveIntervals s = [] -> ScrapeComplete ∉ es ->
  liveIntervals (runs es s) = [].
Proof.
  induction es as [|e es IH]; intros s Hs Hlive Hes; [done|].
  apply not_elem_of_cons in Hes as [Hne Hes].
  change (runs (e :: es) s) with (runs es (run e s).1).
  apply IH; [by apply handle_in_step | | done].
  apply stays_stopped_step; [done | done | by intros ->].
Qed.

(** X22. A manual fetch request or a scrape error stops the periodic
    refresh, and it stays stopped whatever the host delivers next, until
    a scrape completes: no interval is live in between. *)
Theorem refresh_stays_stopped s e es :
  in_step s -> e = FetchRequest \/ e = ScrapeError -> ScrapeComplete ∉ es ->
  liveIntervals (runs (e :: es) s) = [].
Proof.
  intros Hs He Hes. change (runs (e :: es) s) with (runs es (run e s).1).
  apply runs_stay_stopped; [by apply handle_in_step | | done].
  pose proof (stopPeriodicRefresh_tracked s (proj1 Hs)) as Hstop.
  destruct He as [->| ->]; cbv [run handle on_FETCH_TWEETS_REQUEST on_SCRAPE_ERROR_RESPONSE
    mbind M_bind bind emit fst];
    destruct (stopPeriodicRefresh s) as [[[] s'] acts]; by destruct Hstop as (_ & -> & _).
Qed.
End BackgroundTraces.

Section BackgroundTracesRuns.
Import JS Background.

Lemma polling_reachable : reachable Samples.polling.
Proof.
  change Samples.polling
    with (run ScrapeComplete (run (TabReady (Some Samples.tab7)) initial).1).1.
  apply reach_step; [|exact I]. apply reach_step; [|exact I]. apply reach_initial.
Qed.

Lemma reachable_single_interval_witness :
  (liveIntervals Samples.polling = [] /\ refreshIntervalId Samples.polling = None)
  \/ (exists h tab, liveIntervals Samples.polling = [h]
                    /\ refreshIntervalId Samples.polling = Some h
                    /\ twitterTabId Samples.polling = Some tab).
Proof.
  apply (reachable_single_interval Samples.polling). exact polling_reachable.
Defined.


Lemma scrape_request_after_update_witness :
  7 = 7 /\ true = true /\ isReloadingForScrape Samples.reloading = true
  /\ reloadingTabId Samples.reloading = Some 7 /\ onHome (Some Samples.home) = true.
Proof.
  apply (scrape_request_after_update Samples.reloading 7 true (Some Samples.home) 7).
  vm_compute. left.
Defined.

Lemma refresh_stays_stopped_witness :
  liveIntervals
    (runs [FetchRequest; TimerFired 0; TabUpdated 7 true (Some Samples.home)]
       Samples.polling) = [].
Proof.
  apply (refresh_stays_stopped Samples.polling FetchRequest
           [TimerFired 0; TabUpdated 7 true (Some Samples.home)]).
  - split; by vm_compute.
  - by left.
  - intros H. apply elem_of_cons in H as [H|H]; [discriminate H|].
    apply elem_of_cons in H as [H|H]; [discriminate H|]. by apply elem_of_nil in H.
Defined.
End BackgroundTracesRuns.

(** ** The hashed tweet id *)

Section TweetHashFacts.
Import JS TweetHash.

Lemma ToInt32_range z : - 2 ^ 31 <= ToInt32 z < 2 ^ 31.
Proof.
  unfold ToInt32. change (2 ^ 31) with 2147483648. change (2 ^ 32) with 4294967296.
  Z.div_mod_to_equations. lia.
Qed.

Lemma ToInt32_congr a b k : a = b + 2 ^ 32 * k -> ToInt32 a = ToInt32 b.
Proof.
  intros ->. unfold ToInt32. f_equal.
  replace (b + 2 ^ 32 * k + 2 ^ 31) with (b + 2 ^ 31 + k * 2 ^ 32) by lia.
  apply Z.mod_add. by change (2 ^ 32) with 4294967296.
Qed.

Lemma ToInt32_wraps z : exists k, ToInt32 z = z + 2 ^ 32 * k.
Proof.
  exists (- ((z + 2 ^ 31) / 2 ^ 32)). unfold ToInt32.
  change (2 ^ 31) with 2147483648. change (2 ^ 32) with 4294967296.
  Z.div_mod_to_equations. lia.
Qed.

Lemma hash_step_31 h h' c :
  h = ToInt32 h' -> hash_step h c = ToInt32 (31 * h' + c).
Proof.
  intros ->. unfold hash_step.
  destruct (ToInt32_wraps h') as [k Hk].
  destruct (ToInt32_wraps (ToInt32 h' * 32)) as [j Hj].
  apply (ToInt32_congr _ _ (j + 31 * k)). rewrite Hj, Hk. lia.
Qed.

Lemma hashOf_from h h' s :
  h = ToInt32 h' ->
  foldl hash_step h s = ToInt32 (foldl (fun h c => 31 * h + c) h' s).
Proof.
  revert h h'. induction s as [|c s IH]; intros h h' Hh; [done|].
  simpl. apply IH. by apply hash_step_31.
Qed.

(** X23. The hash that the loop computes over the key string is the
    polynomial in 31 of its code units (the hash of Java's String.hashCode)
    wrapped to a signed 32-bit integer. *)
Theorem hashOf_polynomial s : hashOf s = ToInt32 (polynomial31 s).
Proof. apply hashOf_from. reflexivity. Qed.



Lemma hex_lower_ok v : 0 <= v < 16 -> is_hex_lower (hex_lower v) = true.
Proof.
  intros Hv. unfold hex_lower, is_hex_lower, is_digit.
  destruct (Z.ltb_spec v 10); apply orb_true_iff; [left | right];
    apply andb_true_iff; split; apply Z.leb_le; lia.
Qed.

Lemma hex_units_shape k : forall fuel n,
  (k <= fuel)%nat -> 0 <= n < 16 ^ Z.of_nat k -> (0 < k)%nat ->
  (1 <= length (hex_units fuel n) <= k)%nat
  /\ Forall (fun c => is_hex_lower c = true) (hex_units fuel n).
Proof.
  induction k as [|k IH]; intros fuel n Hfuel Hn Hk; [lia|].
  destruct fuel as [|fuel]; [lia|]. simpl hex_units.
  destruct (Z.ltb_spec n 16).
  - split; [simpl; lia|]. apply Forall_cons_2; [|apply Forall_nil_2].
    apply hex_lower_ok. lia.
  - destruct k as [|k].
    { change (16 ^ Z.of_nat 1) with 16 in Hn. lia. }
    destruct (IH fuel (n / 16)) as [Hlen Hall]; [lia| |lia|].
    { rewrite Nat2Z.inj_succ, Z.pow_succ_r in Hn by lia.
      split; [apply Z.div_pos; lia|]. apply Z.div_lt_upper_bound; lia. }
    split.
    + rewrite length_app. simpl. lia.
    + apply Forall_app. split; [done|]. apply Forall_cons_2; [|apply Forall_nil_2].
      apply hex_lower_ok. apply Z.mod_pos_bound. lia.
Qed.

(** X24. The hashed id is the prefix tweet- (cs-tweet- in the content
    script) followed by one to eight lowercase hexadecimal digits, the same
    digits in both scripts. *)
Theorem generateTweetId_shape rawTweet :
  exists digits,
    generateTweetId rawTweet = lit "tweet-" ++ digits
    /\ generateTweetIdForContentScript rawTweet = lit "cs-tweet-" ++ digits
    /\ (1 <= length digits <= 8)%nat
    /\ Forall (fun c => is_hex_lower c = true) digits.
Proof.
  eexists. split; [reflexivity|]. split; [reflexivity|].
  apply (hex_units_shape 8); [lia| |lia].
  rewrite hashOf_polynomial.
  pose proof (ToInt32_range (polynomial31 (keyString rawTweet))) as H.
  change (2 ^ 31) with 2147483648 in H. change (16 ^ Z.of_nat 8) with 4294967296. lia.
Qed.
End TweetHashFacts.

Section TweetHashCollisions.
Import JS TweetHash.

Lemma polynomial31_app s1 s2 h :
  foldl (fun h c => 31 * h + c) h (s1 ++ s2) =
  foldl (fun h c => 31 * h + c) (foldl (fun h c => 31 * h + c) h s1) s2.
Proof. apply foldl_app. Qed.

(** X25. The hashed id does not tell apart two authors that differ in two
    neighbouring code units [a; b] and [a + 1; b - 31], such as Aa and BB:
    with the same timestamp and content both tweets get the same id. *)
Theorem generateTweetId_collides timestamp content pre a b post :
  generateTweetId {| author := pre ++ [a; b] ++ post; content := content;
                     timestamp := timestamp |}
  = generateTweetId {| author := pre ++ [a + 1; b - 31] ++ post; content := content;
                       timestamp := timestamp |}.
Proof.
  unfold generateTweetId, keyString. cbn [author TweetHash.content TweetHash.timestamp].
  do 3 f_equal. rewrite !hashOf_polynomial. f_equal. unfold polynomial31.
  rewrite !polynomial31_app. f_equal. f_equal. f_equal. simpl. lia.
Qed.
End TweetHashCollisions.

(** ** The age of a stored post *)

Section TimeAgoFacts.
Import JS TimeAgo.
Variable Date_parse : jsstring -> Date.

Lemma to_double_exact d : Z.abs d < 2 ^ 53 -> to_double d = d.
Proof.
  intros Hd. unfold to_double. destruct (Z.leb_spec (Z.abs d) (2 ^ 53)); [done | lia].
Qed.

(** Below 2^53 the rounded quotient does not reach the next integer. *)
Lemma floor_div_exact x b :
  0 < b -> Z.abs x < 2 ^ 53 -> floor_div (Some x) b = Some (x / b).
Proof.
  intros Hb Hx. unfold floor_div. cbn [option_map]. f_equal.
  destruct (Z.eqb_spec (x mod b) 0) as [|Hr]; [done|]. cbn [orb].
  set (q := x / b). set (r := x mod b). fold r in Hr.
  set (m := if 0 <=? q then q else - (q + 1)).
  destruct (Z.eqb_spec m 0) as [|Hm]; [done|].
  destruct (Z.leb_spec ((b - r) * 2 ^ (53 - Z.log2 m)) b) as [Hle|]; [|done].
  exfalso.
  assert (Hdiv : x = b * q + r /\ 0 <= r < b).
  { unfold q, r. split; [apply Z.div_mod; lia | apply Z.mod_pos_bound; lia]. }
  destruct Hdiv as [Hxq Hrb].
  assert (Hmpos : 0 < m) by (unfold m in *; destruct (Z.leb_spec 0 q); lia).
  assert (Hmb : m * b <= Z.abs x).
  { unfold m. destruct (Z.leb_spec 0 q); nia. }
  destruct (Z.log2_spec m Hmpos) as [Hlo _].
  assert (Hl : 0 <= Z.log2 m) by apply Z.log2_nonneg.
  assert (Hl53 : Z.log2 m < 53).
  { apply Z.log2_lt_pow2; [done|]. nia. }
  assert (Hsplit : 2 ^ 53 = 2 ^ Z.log2 m * 2 ^ (53 - Z.log2 m)).
  { rewrite <- Z.pow_add_r by lia. f_equal. lia. }
  assert (Hp : 0 < 2 ^ Z.log2 m) by (apply Z.pow_pos_nonneg; lia).
  assert (Hq : 0 < 2 ^ (53 - Z.log2 m)) by (apply Z.pow_pos_nonneg; lia).
  assert (b < 2 ^ (53 - Z.log2 m)) by nia.
  nia.
Qed.

(** X26. While the age of a post (the instant of the display minus the
    parsed timestamp) is below 2^53 ms in magnitude, it is shown in minutes
    when it is below one hour, which includes every negative age (a
    timestamp in the future), in hours when it is below one day, and in
    days from then on, each count rounded down; a timestamp that the
    engine cannot parse is shown as NaN days. *)
Theorem formatTimeAgo_thresholds timestamp now :
  (forall t, Date_parse (parserInput timestamp) = Some t -> Z.abs (now - t) < 2 ^ 53) ->
  formatTimeAgo Date_parse timestamp now =
  match Date_parse (parserInput timestamp) with
  | None => lit "NaN" ++ [0x5929; 0x524D]
  | Some t =>
      let d := now - t in
      if d <? 3600000 then Z_toString (d / 60000) ++ [0x5206; 0x949F; 0x524D]
      else if d <? 86400000 then Z_toString (d / 3600000) ++ [0x5C0F; 0x65F6; 0x524D]
      else Z_toString (d / 86400000) ++ [0x5929; 0x524D]
  end.
Proof.
  intros Hage. unfold formatTimeAgo, num_sub, getTime.
  destruct (Date_parse (parserInput timestamp)) as [t|]; [|reflexivity].
  specialize (Hage t eq_refl). cbn [option_map].
  rewrite to_double_exact by done.
  change (1000 * 60) with 60000. change (60000 * 60) with 3600000.
  change (3600000 * 24) with 86400000.
  rewrite !floor_div_exact by (done || lia).
  unfold num_lt. cbn [Number_toString].
  destruct (Z.ltb_spec ((now - t) / 60000) 60), (Z.ltb_spec (now - t) 3600000);
    [reflexivity | exfalso; Z.div_mod_to_equations; lia
     | exfalso; Z.div_mod_to_equations; lia |].
  destruct (Z.ltb_spec ((now - t) / 3600000) 24), (Z.ltb_spec (now - t) 86400000);
    [reflexivity | exfalso; Z.div_mod_to_equations; lia
     | exfalso; Z.div_mod_to_equations; lia | reflexivity].
Qed.

End TimeAgoFacts.

Section TimeAgoInput.
Import JS TimeAgo.
Variable LocalTZA : Z -> Z.

Lemma isoYear_4_digits y : 1000 <= y <= 9999 -> isoYear y = digits4 y.
Proof.
  intros Hy. unfold isoYear.
  destruct (Z.leb_spec 0 y), (Z.leb_spec y 9999); try lia. cbn [andb].
  unfold pad. rewrite Z_toString_4_digits by done. reflexivity.
Qed.

(** X27. For a post dated in a local year of four digits, the string that
    the age display hands to the Date parser, made from the stored
    timestamp, is the local date and time in ISO form without a zone: the
    first 19 characters of the ISO string of the local time. *)
Theorem parserInput_of_timestamp t :
  let lt := LocalTime LocalTZA t in
  1000 <= YearFromTime lt <= 9999 ->
  parserInput (Content.formatTimestamp LocalTZA (Some t)) = take 19 (isoString lt).
Proof.
  intros lt Hy. rewrite formatTimestamp_digits by done. fold lt.
  unfold isoString. rewrite isoYear_4_digits by done.
  pose proof (MonthFromTime_range lt) as Hm. pose proof (DateFromTime_range lt) as Hd.
  pose proof (clock_fields_range lt) as (Hh & Hmi & Hs).
  rewrite !pad_2_digits by lia.
  unfold parserInput, digits4, digits2. cbn [app lit take]. 
  unfold replace_all. cbn [map].
  repeat match goal with
  | |- context [?x =? 47] =>
      lazymatch x with
      | 47 => fail
      | _ => destruct (Z.eqb_spec x 47) as [E|_]; [exfalso; revert E; Z.div_mod_to_equations; lia|]
      end
  end.
  cbn [Z.eqb Pos.eqb replace_first].
  repeat match goal with
  | |- context [?x =? 32] =>
      lazymatch x with
      | 32 => fail
      | _ => destruct (Z.eqb_spec x 32) as [E|_]; [exfalso; revert E; Z.div_mod_to_equations; lia|]
      end
  end.
  reflexivity.
Qed.
End TimeAgoInput.

Section TimeAgoRuns.
Import JS TimeAgo.

(** Beyond 2^53 the difference is rounded before it is divided: a post
    dated 397439999999999 ms before the epoch, shown at the latest time
    value, is 104599999 days and almost one more old, and is shown as
    104600000 days old. *)
Example formatTimeAgo_rounds :
  formatTimeAgo (fun _ => Some (-397439999999999)) [] 8640000000000000
  = lit "104600000" ++ [0x5929; 0x524D]
  /\ (8640000000000000 - -397439999999999) / 86400000 = 104599999.
Proof. split; by vm_compute. Qed.

(** A post of 05:23:17 shown at 09:46:40 the same day. *)
Lemma formatTimeAgo_thresholds_witness :
  formatTimeAgo Samples.parseLocal (lit "2023/10/27 05:23:17") 1698400000000
  = lit "4" ++ [0x5C0F; 0x65F6; 0x524D].
Proof.
  rewrite (formatTimeAgo_thresholds Samples.parseLocal (lit "2023/10/27 05:23:17")
             1698400000000).
  - by vm_compute.
  - intros t Ht. vm_compute in Ht. injection Ht as <-. by vm_compute.
Defined.

Lemma parserInput_of_timestamp_witness :
  parserInput (Content.formatTimestamp Samples.utc (Some 1698384197000))
  = take 19 (isoString (LocalTime Samples.utc 1698384197000)).
Proof.
  apply (parserInput_of_timestamp Samples.utc 1698384197000).
  split; by vm_compute.
Defined.
End TimeAgoRuns.

(** ** Tweet ids: what the id is cut from *)

Section IdPrefix.
Import JS Content.

Lemma code_points_ascii p rest :
  Forall (fun c => 0 <= c < 128) p ->
  code_points (p ++ rest) = (Some <$> p) ++ code_points rest.
Proof.
  induction 1 as [|c p Hc _ IH]; [done|].
  cbn [app code_points fmap list_fmap]. unfold is_high_surrogate, is_low_surrogate.
  destruct (Z.leb_spec 0xD800 c); [lia|]. destruct (Z.leb_spec 0xDC00 c); [lia|].
  cbn [andb]. by rewrite IH.
Qed.

Lemma TextEncoder_encode_ascii p rest :
  Forall (fun c => 0 <= c < 128) p ->
  TextEncoder_encode (p ++ rest) = p ++ TextEncoder_encode rest.
Proof.
  intros Hp. unfold TextEncoder_encode. rewrite code_points_ascii by done.
  rewrite flat_map_app. f_equal.
  induction Hp as [|c p Hc _ IH]; [done|].
  cbn [fmap list_fmap flat_map default]. rewrite IH.
  change (utf8_of_code_point (id c)) with (utf8_of_code_point c).
  unfold utf8_of_code_point.
  destruct (Z.ltb_spec c 0x80); [done | lia].
Qed.

Lemma base64_triple_alnum a b c :
  plain a -> plain b -> plain c ->
  Forall alnum [b64_char (a / 4); b64_char (a mod 4 * 16 + b / 16);
                b64_char (b mod 16 * 4 + c / 64); b64_char (c mod 64)].
Proof.
  intros [Ha _] [Hb _] [Hc Hc'].
  repeat first [apply Forall_nil_2 | apply Forall_cons_2];
    apply b64_char_alnum; Z.div_mod_to_equations; lia.
Qed.

Lemma truncate_id_16 cs rest :
  length cs = 16%nat -> Forall alnum cs -> truncate_id (cs ++ rest) = cs.
Proof.
  intros Hlen Hcs. unfold truncate_id, strip_non_alnum, substring.
  rewrite filter_app. cbn [skipn]. 
  assert (Hf : filter (fun c => is_alnum c = true) cs = cs).
  { clear Hlen. induction Hcs as [|c cs Hc _ IH]; [done|].
    rewrite filter_cons, IH. by destruct (decide _). }
  rewrite Hf. replace (16 - 0)%nat with (length cs) by (by rewrite Hlen).
  apply take_app_length.
Qed.

(** X28. When the author name starts with twelve plain ASCII characters
    (any but > ? ~ and DEL), the id of a tweet is the base64 text of these
    twelve characters: neither the rest of the name nor the content nor the
    publish time plays a part, so all tweets of such an author get one id.
    The computation returns this id whenever the id source can be encoded,
    and whenever it returns an id, it is this one. *)
Theorem generateId_of_author_prefix author content publishTime r :
  wf_string author -> wf_string content ->
  (12 <= length author)%nat ->
  Forall plain (take 12 author) ->
  (encodable (author ++ content ++ Number_toString (getTime publishTime)) r ->
     generateId author content publishTime r = Some (base64 (take 12 author)))
  /\ (forall id, generateId author content publishTime r = Some id ->
        id = base64 (take 12 author)).
Proof.
  intros Ha Hc Hlen Hplain.
  destruct (generateId_encodes author content publishTime r Ha Hc) as (_ & Hyes & Hno).
  assert (E : truncate_id (base64 (TextEncoder_encode
                (author ++ content ++ Number_toString (getTime publishTime))))
              = base64 (take 12 author)).
  { rewrite <- (take_drop 12 author) at 1. rewrite <- app_assoc.
    rewrite TextEncoder_encode_ascii
      by (eapply Forall_impl; [exact Hplain|]; unfold plain; simpl; tauto).
    assert (H12 : length (take 12 author) = 12%nat) by (rewrite length_take; lia).
    set (rest := TextEncoder_encode _). clearbody rest.
    destruct (take 12 author) as [|b1 [|b2 [|b3 [|b4 [|b5 [|b6 [|b7 [|b8 [|b9 [|b10 [|b11
      [|b12 [|? ?]]]]]]]]]]]]]; try discriminate H12. clear H12.
    repeat match goal with
    | H : Forall _ (_ :: _) |- _ => apply Forall_cons in H as [? H]
    end.
    cbn [app base64].
    change (?c1 :: ?c2 :: ?c3 :: ?c4 :: ?c5 :: ?c6 :: ?c7 :: ?c8 :: ?c9 :: ?c10 :: ?c11
            :: ?c12 :: ?c13 :: ?c14 :: ?c15 :: ?c16 :: base64 rest)
      with ([c1; c2; c3; c4; c5; c6; c7; c8; c9; c10; c11; c12; c13; c14; c15; c16]
            ++ base64 rest).
    apply truncate_id_16; [done|].
    change (Forall alnum
      ([b64_char (b1 / 4); b64_char (b1 mod 4 * 16 + b2 / 16);
        b64_char (b2 mod 16 * 4 + b3 / 64); b64_char (b3 mod 64)]
       ++ [b64_char (b4 / 4); b64_char (b4 mod 4 * 16 + b5 / 16);
           b64_char (b5 mod 16 * 4 + b6 / 64); b64_char (b6 mod 64)]
       ++ [b64_char (b7 / 4); b64_char (b7 mod 4 * 16 + b8 / 16);
           b64_char (b8 mod 16 * 4 + b9 / 64); b64_char (b9 mod 64)]
       ++ [b64_char (b10 / 4); b64_char (b10 mod 4 * 16 + b11 / 16);
           b64_char (b11 mod 16 * 4 + b12 / 64); b64_char (b12 mod 64)])).
    rewrite !Forall_app. repeat split; by apply base64_triple_alnum. }
  rewrite <- E. split; [exact Hyes|].
  intros id Hid.
  destruct (encodable_cases
              (author ++ content ++ Number_toString (getTime publishTime)) r) as [He|He].
  - rewrite (Hyes He) in Hid. by injection Hid.
  - by rewrite (Hno He) in Hid.
Qed.
End IdPrefix.

Section IdPrefixRuns.
Import JS Content.

Lemma generateId_of_author_prefix_witness :
  generateId (lit "Daily Weather Report") (lit "Sunny today") (Some 1698384197000)
    Samples.reading
  = Some (base64 (take 12 (lit "Daily Weather Report"))).
Proof.
  refine (proj1 (generateId_of_author_prefix (lit "Daily Weather Report")
                   (lit "Sunny today") (Some 1698384197000) Samples.reading _ _ _ _) _).
  - unfold wf_string, code_unit. by_evaluation.
  - unfold wf_string, code_unit. by_evaluation.
  - vm_compute. lia.
  - unfold plain. by_evaluation.
  - left. unfold fits. by vm_compute.
Defined.
End IdPrefixRuns.

(** ** Extraction: elements without a readable time *)

Section ExtractionEdges.
Import JS Content.
Variable LocalTZA : Z -> Z.
Variable Date_parse : jsstring -> Date.

Lemma extractTweets_app els1 els2 : extractTweets LocalTZA Date_parse (els1 ++ els2) = extractTweets LocalTZA Date_parse els1 ++ extractTweets LocalTZA Date_parse els2.
Proof.
  induction els1 as [|[el r] els1 IH]; [done|]. cbn [app extractTweets].
  destruct (isAd el); [done|]. destruct (extractTweet _ _ el r); [|done].
  by rewrite IH.
Qed.

(** X29. An element whose datetime attribute is present, not empty and
    not a date that the engine can parse yields no post: it is skipped, and
    the elements before and after it are extracted as without it. *)
Theorem extractTweets_skips_unparseable els1 el r els2 te c attr :
  timeElement el = Some te ->
  datetime te = Some (c :: attr) -> Date_parse (c :: attr) = None ->
  extractTweets LocalTZA Date_parse (els1 ++ (el, r) :: els2) = extractTweets LocalTZA Date_parse els1 ++ extractTweets LocalTZA Date_parse els2.
Proof.
  intros Ht Hd Hp. rewrite extractTweets_app. f_equal. cbn [extractTweets].
  rewrite (extractTweet_unparseable LocalTZA Date_parse el te c attr r Ht Hd Hp).
  by destruct (isAd el).
Qed.

(** X30. An element without a time element, or with one that has no
    datetime attribute and a text without a relative time, is dated by the
    clock: every post extracted from it has the ISO string of the instant
    of the extraction as its publish time and a timestamp written from
    that instant; author and content are the texts read, Unknown standing
    for a missing or empty name. The post is extracted whenever its id
    source can be encoded. *)
Theorem extractTweet_undated el r :
  wf_element el ->
  timeElement el = None
  \/ (exists te, timeElement el = Some te /\ no_datetime te
                 /\ match_relative (timeText te) = None) ->
  (forall post,
     extractTweet LocalTZA Date_parse el r = Some post ->
     Storage.publishTime post = isoString (clock r)
     /\ Storage.timestamp post = formatTimestamp LocalTZA (Some (clock r))
     /\ Storage.author post = or_else (userName el) (lit "Unknown")
     /\ Storage.content post = or_else (tweetText el) [])
  /\ (encodable (or_else (userName el) (lit "Unknown") ++ or_else (tweetText el) []
                 ++ Number_toString (getTime (Some (clock r)))) r ->
      is_Some (extractTweet LocalTZA Date_parse el r)).
Proof.
  intros Hwf Htime.
  assert (Hpub : publishTimeOf Date_parse (timeElement el) (clock r) = Some (clock r)).
  { destruct Htime as [->|(te & -> & Hnd & Hm)]; [done|].
    by apply publishTimeOf_unmatched. }
  split.
  - intros post. unfold extractTweet. rewrite Hpub.
    destruct (generateId _ _ _ r) as [id|]; [|done]. cbn [toISOString option_map].
    intros [= <-]. repeat split; reflexivity.
  - intros Henc.
    assert (Hid : is_Some (generateId (or_else (userName el) (lit "Unknown"))
                             (or_else (tweetText el) []) (Some (clock r)) r)).
    { destruct Hwf as [Hu Ht].
      eexists. eapply generateId_encodes; [| |exact Henc].
      - unfold or_else. destruct (userName el) as [[|c s]|]; try by apply Hu.
        all: unfold wf_string, code_unit; by apply (bool_decide_unpack _).
      - unfold or_else. destruct (tweetText el) as [[|c s]|]; try by apply Ht.
        all: constructor. }
    destruct Hid as [id Hid].
    unfold extractTweet. rewrite Hpub, Hid. by eexists.
Qed.
End ExtractionEdges.


Section ExtractionEdgesRuns.
Import JS Content.

Lemma extractTweets_skips_unparseable_witness :
  extractTweets Samples.utc parseISO
    ([(Samples.report1, Samples.reading)]
     ++ (Samples.undated, Samples.reading) :: [(Samples.bulletin, Samples.later)])
  = extractTweets Samples.utc parseISO [(Samples.report1, Samples.reading)]
    ++ extractTweets Samples.utc parseISO [(Samples.bulletin, Samples.later)].
Proof.
  apply (extractTweets_skips_unparseable Samples.utc parseISO
           [(Samples.report1, Samples.reading)] Samples.undated Samples.reading
           [(Samples.bulletin, Samples.later)]
           {| datetime := Some (lit "yesterday"); timeText := lit "Oct 26" |}
           121 (lit "esterday")); reflexivity.
Defined.

Lemma extractTweet_undated_witness :
  is_Some (extractTweet Samples.utc parseISO (Samples.relative (lit "Oct 26"))
             Samples.reading).
Proof.
  refine (proj2 (extractTweet_undated Samples.utc parseISO (Samples.relative (lit "Oct 26"))
                   Samples.reading _ _) _).
  - split; intros s [= <-]; unfold wf_string, code_unit; by_evaluation.
  - right. exists {| datetime := None; timeText := lit "Oct 26" |}.
    split; [reflexivity|]. split; [by left | reflexivity].
  - left. unfold fits. by vm_compute.
Defined.
End ExtractionEdgesRuns.
